(** * PhysicsSystem: a shallow embedding of the engine's physics step

    The JavaScript class [PhysicsSystem] (engine/PhysicsSystem.js) keeps two
    arrays of object references ([bodies], [colliders]) and a collision
    matrix keyed by object ids.  The embedding follows that shape:

    - JavaScript numbers are embedded as exact rationals [Q]; equalities
      between computed numbers are therefore stated with [==];
    - a [THREE.Vector3] is embedded by value as a record of three numbers
      (every body owns its vectors, as with [createBody]'s defaults and every
      call of the repository);
    - body and collider objects live in a heap addressed by locations, so
      that [indexOf], in-place mutation and an object listed twice behave as
      in the source;
    - the collision matrix is a [gmap string (gmap string bool)];
    - methods are computations in a state-and-exception monad over the
      world; a [TypeError] leaves the mutations made so far in place;
    - collider callbacks are opaque handlers; invoking one is recorded in
      the world's call log, and a callback does not touch the system;
    - [Vector3.prototype.normalize] comes from three.js: the simulation is
      parametric in it.

    The file has the embedding first, then the concrete worlds the
    statements are run on, then the statements: the defaults of the
    factories, id generation, removal, the epsilon guard, free fall, static
    bodies, enter/stay/exit tracking, the resolution axis, solid colliders
    and momentum. *)

From Stdlib Require Import QArith Qabs Qminmax Lqa.
From stdpp Require Import base gmap strings pretty list.

Local Open Scope Q_scope.

(** ** Numbers *)

(** [a < b] on JavaScript numbers, as a boolean. *)
Definition Qltb (a b : Q) : bool := (Qnum a * QDen b <? Qnum b * QDen a)%Z.

(** Truthiness of a number: every number but zero is truthy. *)
Definition truthyQ (q : Q) : bool := negb (Qeq_bool q 0).

(** Truthiness of a string: every string but the empty one is truthy. *)
Definition truthyS (s : string) : bool :=
  match s with EmptyString => false | String _ _ => true end.

(** [o || d] where [o] is a possibly absent number. *)
Definition orQ (o : option Q) (d : Q) : Q :=
  match o with
  | Some q => if truthyQ q then q else d
  | None => d
  end.

(** [o || d] where [o] is a possibly absent string. *)
Definition orS (o : option string) (d : string) : string :=
  match o with
  | Some s => if truthyS s then s else d
  | None => d
  end.

(** [o || d] where [o] is a possibly absent object (objects are truthy). *)
Definition orObj {A : Type} (o : option A) (d : A) : A :=
  match o with Some a => a | None => d end.

(** [o || false] where [o] is a possibly absent boolean. *)
Definition orB (o : option bool) : bool :=
  match o with Some b => b | None => false end.

(** Truthiness of a possibly undefined boolean flag. *)
Definition truthyB (o : option bool) : bool := orB o.

(** ** Vector3 *)

Module THREE.

Record Vector3 : Type := mk { x : Q; y : Q; z : Q }.

(** [new THREE.Vector3()] *)
Definition zero : Vector3 := mk 0 0 0.

Definition add (a b : Vector3) : Vector3 :=
  mk (x a + x b) (y a + y b) (z a + z b).

Definition multiplyScalar (a : Vector3) (s : Q) : Vector3 :=
  mk (x a * s) (y a * s) (z a * s).

Definition divideScalar (a : Vector3) (s : Q) : Vector3 :=
  multiplyScalar a (1 / s).

Definition dot (a b : Vector3) : Q :=
  x a * x b + y a * y b + z a * z b.

Definition with_x (a : Vector3) (q : Q) : Vector3 := mk q (y a) (z a).
Definition with_y (a : Vector3) (q : Q) : Vector3 := mk (x a) q (z a).
Definition with_z (a : Vector3) (q : Q) : Vector3 := mk (x a) (y a) q.

(** Component-wise equality of numbers. *)
Definition equiv (a b : Vector3) : Prop :=
  x a == x b /\ y a == y b /\ z a == z b.

End THREE.

(** ** Objects *)

(** Object identity: the address of a JavaScript object. *)
Definition loc : Type := nat.

(** Identity of a callback function. *)
Definition Handler : Type := nat.

Module Body.

(** The object literal built by [createBody]; [id] is [None] while the
    property is undefined. *)
Record t : Type := mk {
  id : option string;
  position : THREE.Vector3;
  velocity : THREE.Vector3;
  acceleration : THREE.Vector3;
  mass : Q;
  restitution : Q;
  friction : Q;
  isStatic : bool;
  shape : string;
  dimensions : THREE.Vector3
}.

Definition with_id (b : t) (i : option string) : t :=
  mk i (position b) (velocity b) (acceleration b) (mass b)
     (restitution b) (friction b) (isStatic b) (shape b) (dimensions b).

Definition with_position (b : t) (p : THREE.Vector3) : t :=
  mk (id b) p (velocity b) (acceleration b) (mass b)
     (restitution b) (friction b) (isStatic b) (shape b) (dimensions b).

Definition with_velocity (b : t) (v : THREE.Vector3) : t :=
  mk (id b) (position b) v (acceleration b) (mass b)
     (restitution b) (friction b) (isStatic b) (shape b) (dimensions b).

Definition with_acceleration (b : t) (a : THREE.Vector3) : t :=
  mk (id b) (position b) (velocity b) a (mass b)
     (restitution b) (friction b) (isStatic b) (shape b) (dimensions b).

(** The [options] argument of [createBody]: every property may be absent. *)
Record options : Type := mkOptions {
  o_id : option string;
  o_position : option THREE.Vector3;
  o_velocity : option THREE.Vector3;
  o_acceleration : option THREE.Vector3;
  o_mass : option Q;
  o_restitution : option Q;
  o_friction : option Q;
  o_isStatic : option bool;
  o_shape : option string;
  o_dimensions : option THREE.Vector3
}.

(** [{}] *)
Definition no_options : options :=
  mkOptions None None None None None None None None None None.

End Body.

Module Collider.

(** The object literal built by [createCollider].  It has no [isStatic],
    [velocity], [mass], [restitution] or [friction] property. *)
Record t : Type := mk {
  id : option string;
  position : THREE.Vector3;
  shape : string;
  dimensions : THREE.Vector3;
  isTrigger : bool;
  onCollisionEnter : option Handler;
  onCollisionStay : option Handler;
  onCollisionExit : option Handler;
  onTriggerEnter : option Handler;
  onTriggerStay : option Handler;
  onTriggerExit : option Handler
}.

Definition with_id (c : t) (i : option string) : t :=
  mk i (position c) (shape c) (dimensions c) (isTrigger c)
     (onCollisionEnter c) (onCollisionStay c) (onCollisionExit c)
     (onTriggerEnter c) (onTriggerStay c) (onTriggerExit c).

Record options : Type := mkOptions {
  o_id : option string;
  o_position : option THREE.Vector3;
  o_shape : option string;
  o_dimensions : option THREE.Vector3;
  o_isTrigger : option bool;
  o_onCollisionEnter : option Handler;
  o_onCollisionStay : option Handler;
  o_onCollisionExit : option Handler;
  o_onTriggerEnter : option Handler;
  o_onTriggerStay : option Handler;
  o_onTriggerExit : option Handler
}.

Definition no_options : options :=
  mkOptions None None None None None None None None None None None.

End Collider.

(** The second argument of the collision routines is either a body or a
    collider; the routines read its properties by name. *)
Inductive Ref : Type :=
  | RBody (l : loc)
  | RCollider (l : loc).

Inductive Obj : Type :=
  | OBody (b : Body.t)
  | OCollider (c : Collider.t).

Module Obj.

Definition id (o : Obj) : option string :=
  match o with OBody b => Body.id b | OCollider c => Collider.id c end.

Definition position (o : Obj) : THREE.Vector3 :=
  match o with
  | OBody b => Body.position b
  | OCollider c => Collider.position c
  end.

Definition shape (o : Obj) : string :=
  match o with OBody b => Body.shape b | OCollider c => Collider.shape c end.

Definition dimensions (o : Obj) : THREE.Vector3 :=
  match o with
  | OBody b => Body.dimensions b
  | OCollider c => Collider.dimensions c
  end.

(** [o.isStatic]: undefined on a collider. *)
Definition isStatic (o : Obj) : option bool :=
  match o with OBody b => Some (Body.isStatic b) | OCollider _ => None end.

(** [o.isTrigger]: undefined on a body. *)
Definition isTrigger (o : Obj) : option bool :=
  match o with OBody _ => None | OCollider c => Some (Collider.isTrigger c) end.

(** [o.friction]: undefined on a collider. *)
Definition friction (o : Obj) : option Q :=
  match o with OBody b => Some (Body.friction b) | OCollider _ => None end.

End Obj.

(** ** The system and the world *)

Module PhysicsSystem.

Record t : Type := mk {
  gravity : THREE.Vector3;
  timeScale : Q;
  bodies : list loc;
  colliders : list loc;
  collisionMatrix : gmap string (gmap string bool);
  debugEnabled : bool;
  lastStepTime : Q
}.

Record options : Type := mkOptions {
  o_gravity : option THREE.Vector3;
  o_timeScale : option Q;
  o_debugEnabled : option bool
}.

Definition no_options : options := mkOptions None None None.

(** [constructor(options = {})] *)
Definition constructor (options : options) : t :=
  mk (orObj (o_gravity options) (THREE.mk 0 (-9.8) 0))
     (orQ (o_timeScale options) 1.0)
     []
     []
     ∅
     (orB (o_debugEnabled options))
     0.

Definition with_bodies (s : t) (l : list loc) : t :=
  mk (gravity s) (timeScale s) l (colliders s) (collisionMatrix s)
     (debugEnabled s) (lastStepTime s).

Definition with_colliders (s : t) (l : list loc) : t :=
  mk (gravity s) (timeScale s) (bodies s) l (collisionMatrix s)
     (debugEnabled s) (lastStepTime s).

Definition with_collisionMatrix (s : t) (m : gmap string (gmap string bool)) : t :=
  mk (gravity s) (timeScale s) (bodies s) (colliders s) m
     (debugEnabled s) (lastStepTime s).

Definition with_lastStepTime (s : t) (q : Q) : t :=
  mk (gravity s) (timeScale s) (bodies s) (colliders s) (collisionMatrix s)
     (debugEnabled s) q.

End PhysicsSystem.

(** A recorded callback invocation: the handler and the body it was given
    as sole argument. *)
Record Call : Type := mkCall { callee : Handler; argument : loc }.

Record World : Type := mkWorld {
  bodyHeap : gmap loc Body.t;
  colliderHeap : gmap loc Collider.t;
  this : PhysicsSystem.t;
  calls : list Call
}.

Definition with_bodyHeap (w : World) (h : gmap loc Body.t) : World :=
  mkWorld h (colliderHeap w) (this w) (calls w).

Definition with_colliderHeap (w : World) (h : gmap loc Collider.t) : World :=
  mkWorld (bodyHeap w) h (this w) (calls w).

Definition with_this (w : World) (s : PhysicsSystem.t) : World :=
  mkWorld (bodyHeap w) (colliderHeap w) s (calls w).

Definition with_calls (w : World) (c : list Call) : World :=
  mkWorld (bodyHeap w) (colliderHeap w) (this w) c.

(** [new PhysicsSystem(options)] in an empty heap. *)
Definition new_world (options : PhysicsSystem.options) : World :=
  mkWorld ∅ ∅ (PhysicsSystem.constructor options) [].

(** ** The monad of methods *)

Inductive Error : Type := TypeError.

Definition M (A : Type) : Type := World -> (Error + A) * World.

Global Instance M_ret : MRet M := fun A a w => (inr a, w).

Global Instance M_bind : MBind M := fun A B k m w =>
  match m w with
  | (inr a, w') => k a w'
  | (inl e, w') => (inl e, w')
  end.

Definition throw {A : Type} (e : Error) : M A := fun w => (inl e, w).

Definition gets {A : Type} (f : World -> A) : M A := fun w => (inr (f w), w).

Definition modify (f : World -> World) : M unit := fun w => (inr tt, f w).

(** Reading a property of the object behind a reference; reading through a
    reference to no object is a [TypeError]. *)
Definition getBody (l : loc) : M Body.t := fun w =>
  match bodyHeap w !! l with
  | Some b => (inr b, w)
  | None => (inl TypeError, w)
  end.

Definition getCollider (l : loc) : M Collider.t := fun w =>
  match colliderHeap w !! l with
  | Some c => (inr c, w)
  | None => (inl TypeError, w)
  end.

Definition getObj (r : Ref) : M Obj :=
  match r with
  | RBody l => b ← getBody l; mret (OBody b)
  | RCollider l => c ← getCollider l; mret (OCollider c)
  end.

(** In-place mutation of a body object. *)
Definition modifyBody (l : loc) (f : Body.t -> Body.t) : M unit :=
  b ← getBody l;
  modify (fun w => with_bodyHeap w (<[l := f b]> (bodyHeap w))).

Definition modifyCollider (l : loc) (f : Collider.t -> Collider.t) : M unit :=
  c ← getCollider l;
  modify (fun w => with_colliderHeap w (<[l := f c]> (colliderHeap w))).

Definition modifyThis (f : PhysicsSystem.t -> PhysicsSystem.t) : M unit :=
  modify (fun w => with_this w (f (this w))).

(** [array.forEach(f)] *)
Fixpoint forEach {A : Type} (l : list A) (f : A -> M unit) : M unit :=
  match l with
  | [] => mret tt
  | a :: l' => f a;; forEach l' f
  end.

(** [for (let i = i0; i < array.length; i++) f(i, array[i])] over the part
    of the array from index [i0] on. *)
Fixpoint forFrom {A : Type} (i0 : nat) (l : list A) (f : nat -> A -> M unit) : M unit :=
  match l with
  | [] => mret tt
  | a :: l' => f i0 a;; forFrom (S i0) l' f
  end.

(** [if (h) h(body)] *)
Definition invoke (h : option Handler) (body : loc) : M unit :=
  match h with
  | Some f => modify (fun w => with_calls w (calls w ++ [mkCall f body]))
  | None => mret tt
  end.

(** ** Registry *)

(** Truthiness of an [id] property. *)
Definition truthyId (i : option string) : bool :=
  match i with Some s => truthyS s | None => false end.

(** The property key an [id] value denotes when used as an index into the
    collision matrix. *)
Definition key (i : option string) : string := default "undefined" i.

(** [array.indexOf(x)]: the first index holding the very object [x]. *)
Fixpoint indexOf (l : list loc) (x : loc) : option nat :=
  match l with
  | [] => None
  | y :: l' => if decide (y = x) then Some 0%nat else S <$> indexOf l' x
  end.

(** Evaluation of an object literal: a new body object. *)
Definition newBody (b : Body.t) : M loc := fun w =>
  let l := fresh (dom (bodyHeap w)) in
  (inr l, with_bodyHeap w (<[l := b]> (bodyHeap w))).

Definition newCollider (c : Collider.t) : M loc := fun w =>
  let l := fresh (dom (colliderHeap w)) in
  (inr l, with_colliderHeap w (<[l := c]> (colliderHeap w))).

Definition addBody (body : loc) : M loc :=
  b ← getBody body;
  (if negb (truthyId (Body.id b)) then
     n ← gets (fun w => length (PhysicsSystem.bodies (this w)));
     modifyBody body (fun b => Body.with_id b (Some ("body_" +:+ pretty n)))
   else mret tt);;
  modifyThis (fun s =>
    PhysicsSystem.with_bodies s (PhysicsSystem.bodies s ++ [body]));;
  mret body.

Definition removeBody (body : loc) : M unit :=
  bodies ← gets (fun w => PhysicsSystem.bodies (this w));
  match indexOf bodies body with
  | Some index =>
      modifyThis (fun s => PhysicsSystem.with_bodies s (delete index bodies));;
      b ← getBody body;
      let k := key (Body.id b) in
      modifyThis (fun s =>
        PhysicsSystem.with_collisionMatrix s
          (delete k <$> delete k (PhysicsSystem.collisionMatrix s)))
  | None => mret tt
  end.

Definition addCollider (collider : loc) : M loc :=
  c ← getCollider collider;
  (if negb (truthyId (Collider.id c)) then
     n ← gets (fun w => length (PhysicsSystem.colliders (this w)));
     modifyCollider collider
       (fun c => Collider.with_id c (Some ("collider_" +:+ pretty n)))
   else mret tt);;
  modifyThis (fun s =>
    PhysicsSystem.with_colliders s (PhysicsSystem.colliders s ++ [collider]));;
  mret collider.

Definition removeCollider (collider : loc) : M unit :=
  colliders ← gets (fun w => PhysicsSystem.colliders (this w));
  match indexOf colliders collider with
  | Some index =>
      modifyThis (fun s => PhysicsSystem.with_colliders s (delete index colliders))
  | None => mret tt
  end.

(** The object literal of [createBody], for a body collection of [n]
    entries. *)
Definition bodyLiteral (n : nat) (options : Body.options) : Body.t :=
  Body.mk
    (Some (orS (Body.o_id options) ("body_" +:+ pretty n)))
    (orObj (Body.o_position options) THREE.zero)
    (orObj (Body.o_velocity options) THREE.zero)
    (orObj (Body.o_acceleration options) THREE.zero)
    (orQ (Body.o_mass options) 1.0)
    (orQ (Body.o_restitution options) 0.3)
    (orQ (Body.o_friction options) 0.5)
    (orB (Body.o_isStatic options))
    (orS (Body.o_shape options) "box")
    (orObj (Body.o_dimensions options) (THREE.mk 1 1 1)).

Definition createBody (options : Body.options) : M loc :=
  n ← gets (fun w => length (PhysicsSystem.bodies (this w)));
  body ← newBody (bodyLiteral n options);
  addBody body.

Definition colliderLiteral (n : nat) (options : Collider.options) : Collider.t :=
  Collider.mk
    (Some (orS (Collider.o_id options) ("collider_" +:+ pretty n)))
    (orObj (Collider.o_position options) THREE.zero)
    (orS (Collider.o_shape options) "box")
    (orObj (Collider.o_dimensions options) (THREE.mk 1 1 1))
    (orB (Collider.o_isTrigger options))
    (Collider.o_onCollisionEnter options)
    (Collider.o_onCollisionStay options)
    (Collider.o_onCollisionExit options)
    (Collider.o_onTriggerEnter options)
    (Collider.o_onTriggerStay options)
    (Collider.o_onTriggerExit options).

Definition createCollider (options : Collider.options) : M loc :=
  n ← gets (fun w => length (PhysicsSystem.colliders (this w)));
  collider ← newCollider (colliderLiteral n options);
  addCollider collider.

(** The methods [createBody] attaches to a body. *)
Definition applyForce (body : loc) (force : THREE.Vector3) : M unit :=
  b ← getBody body;
  if Body.isStatic b then mret tt
  else modifyBody body (fun b =>
         Body.with_acceleration b
           (THREE.add (Body.acceleration b) (THREE.divideScalar force (Body.mass b)))).

Definition applyImpulse (body : loc) (impulse : THREE.Vector3) : M unit :=
  b ← getBody body;
  if Body.isStatic b then mret tt
  else modifyBody body (fun b =>
         Body.with_velocity b
           (THREE.add (Body.velocity b) (THREE.divideScalar impulse (Body.mass b)))).

(** ** Detection *)

Definition _checkCollision (a b : Obj) : bool :=
  if negb (String.eqb (Obj.shape a) "box") || negb (String.eqb (Obj.shape b) "box")
  then false
  else
    Qltb (Qabs (THREE.x (Obj.position a) - THREE.x (Obj.position b)) * 2)
         (THREE.x (Obj.dimensions a) + THREE.x (Obj.dimensions b)) &&
    Qltb (Qabs (THREE.y (Obj.position a) - THREE.y (Obj.position b)) * 2)
         (THREE.y (Obj.dimensions a) + THREE.y (Obj.dimensions b)) &&
    Qltb (Qabs (THREE.z (Obj.position a) - THREE.z (Obj.position b)) * 2)
         (THREE.z (Obj.dimensions a) + THREE.z (Obj.dimensions b)).

(** ** The collision matrix *)

(** [if (!matrix[a]) matrix[a] = {}] *)
Definition ensureRow (a : string) (m : gmap string (gmap string bool))
  : gmap string (gmap string bool) :=
  match m !! a with
  | Some _ => m
  | None => <[a := ∅]> m
  end.

(** [matrix[a][b]], read in a matrix that has row [a]. *)
Definition entry (a b : string) (m : gmap string (gmap string bool)) : option bool :=
  m !! a ≫= (fun row => row !! b).

(** [matrix[a][b] = v], written in a matrix that has row [a]. *)
Definition setEntry (a b : string) (v : bool) (m : gmap string (gmap string bool))
  : gmap string (gmap string bool) :=
  alter (fun row => <[b := v]> row) a m.

Inductive Transition : Type := ENTER | STAY | EXIT.

(** The chain [if (is && !was) ... else if (is && was) ... else if (!is &&
    was) ...] of the detection loops. *)
Definition classify (isColliding : bool) (wasColliding : option bool)
  : option Transition :=
  if isColliding && negb (truthyB wasColliding) then Some ENTER
  else if isColliding && truthyB wasColliding then Some STAY
  else if negb isColliding && truthyB wasColliding then Some EXIT
  else None.

(** One visit of the pair of keys [(a, b)] by a detection loop: the row is
    created if needed, the stored flag is read, the new flag is stored. *)
Definition track (a b : string) (isColliding : bool)
    (m : gmap string (gmap string bool))
  : gmap string (gmap string bool) * option Transition :=
  let m1 := ensureRow a m in
  let wasColliding := entry a b m1 in
  (setEntry a b isColliding m1, classify isColliding wasColliding).

(** ** Resolution *)

Inductive Axis : Type := AxisX | AxisY | AxisZ.

(** The per-axis penetration computed by both resolvers. *)
Definition overlapOf (pa da pb db : THREE.Vector3) : THREE.Vector3 :=
  THREE.mk
    ((THREE.x da + THREE.x db) / 2 - Qabs (THREE.x pa - THREE.x pb))
    ((THREE.y da + THREE.y db) / 2 - Qabs (THREE.y pa - THREE.y pb))
    ((THREE.z da + THREE.z db) / 2 - Qabs (THREE.z pa - THREE.z pb)).

(** The chain [if (o.x < o.y && o.x < o.z) ... else if (o.y < o.z) ...
    else ...] of both resolvers. *)
Definition smallestOverlapAxis (overlap : THREE.Vector3) : Axis :=
  if Qltb (THREE.x overlap) (THREE.y overlap) &&
     Qltb (THREE.x overlap) (THREE.z overlap) then AxisX
  else if Qltb (THREE.y overlap) (THREE.z overlap) then AxisY
  else AxisZ.

(** [p < q ? -1 : 1] *)
Definition directionOf (p q : Q) : Q := if Qltb p q then -1 else 1.

(** What [_resolveCollision] writes into [body]. *)
Definition resolveAgainst (staticObj : Obj) (body : Body.t) : Body.t :=
  let p := Body.position body in
  let v := Body.velocity body in
  let q := Obj.position staticObj in
  let overlap := overlapOf p (Body.dimensions body) q (Obj.dimensions staticObj) in
  let pushed :=
    match smallestOverlapAxis overlap with
    | AxisX =>
        let direction := directionOf (THREE.x p) (THREE.x q) in
        Body.with_velocity
          (Body.with_position body
             (THREE.with_x p (THREE.x p + direction * THREE.x overlap)))
          (THREE.with_x v (- THREE.x v * Body.restitution body))
    | AxisY =>
        let direction := directionOf (THREE.y p) (THREE.y q) in
        Body.with_velocity
          (Body.with_position body
             (THREE.with_y p (THREE.y p + direction * THREE.y overlap)))
          (THREE.with_y v (- THREE.y v * Body.restitution body))
    | AxisZ =>
        let direction := directionOf (THREE.z p) (THREE.z q) in
        Body.with_velocity
          (Body.with_position body
             (THREE.with_z p (THREE.z p + direction * THREE.z overlap)))
          (THREE.with_z v (- THREE.z v * Body.restitution body))
    end in
  let frictionBoth :=
    Qltb 0 (Body.friction pushed) &&
    match Obj.friction staticObj with
    | Some f => Qltb 0 f
    | None => false
    end in
  if frictionBoth then
    let combinedFriction :=
      Body.friction pushed * default 0 (Obj.friction staticObj) in
    let v' := Body.velocity pushed in
    Body.with_velocity pushed
      (THREE.mk (THREE.x v' * (1 - combinedFriction))
                (THREE.y v')
                (THREE.z v' * (1 - combinedFriction)))
  else pushed.

Definition _resolveCollision (body : loc) (staticObj : Ref) : M unit :=
  _ ← getBody body;
  s ← getObj staticObj;
  modifyBody body (resolveAgainst s).

Section Simulation.

(** [Vector3.prototype.normalize] belongs to the three.js library, which is
    not part of the repository: the simulation takes it as a parameter. *)
Variable normalize : THREE.Vector3 -> THREE.Vector3.

(** The axis-separation tail of [_resolveCollisionDynamic]. *)
Definition separate (bodyA bodyB : loc) (A B : Body.t) : M unit :=
  let pa := Body.position A in
  let pb := Body.position B in
  let overlap := overlapOf pa (Body.dimensions A) pb (Body.dimensions B) in
  match smallestOverlapAxis overlap with
  | AxisX =>
      let direction := directionOf (THREE.x pa) (THREE.x pb) in
      let moveAmount := THREE.x overlap / 2 in
      modifyBody bodyA (fun b =>
        let p := Body.position b in
        Body.with_position b (THREE.with_x p (THREE.x p + direction * moveAmount)));;
      modifyBody bodyB (fun b =>
        let p := Body.position b in
        Body.with_position b (THREE.with_x p (THREE.x p - direction * moveAmount)))
  | AxisY =>
      let direction := directionOf (THREE.y pa) (THREE.y pb) in
      let moveAmount := THREE.y overlap / 2 in
      modifyBody bodyA (fun b =>
        let p := Body.position b in
        Body.with_position b (THREE.with_y p (THREE.y p + direction * moveAmount)));;
      modifyBody bodyB (fun b =>
        let p := Body.position b in
        Body.with_position b (THREE.with_y p (THREE.y p - direction * moveAmount)))
  | AxisZ =>
      let direction := directionOf (THREE.z pa) (THREE.z pb) in
      let moveAmount := THREE.z overlap / 2 in
      modifyBody bodyA (fun b =>
        let p := Body.position b in
        Body.with_position b (THREE.with_z p (THREE.z p + direction * moveAmount)));;
      modifyBody bodyB (fun b =>
        let p := Body.position b in
        Body.with_position b (THREE.with_z p (THREE.z p - direction * moveAmount)))
  end.

(** The impulse vector [_resolveCollisionDynamic] computes for two bodies,
    or [None] when they are separating along the normal. *)
Definition impulseOf (A B : Body.t) : option THREE.Vector3 :=
  let va := Body.velocity A in
  let vb := Body.velocity B in
  let pa := Body.position A in
  let pb := Body.position B in
  let relativeVelocity :=
    THREE.mk (THREE.x va - THREE.x vb) (THREE.y va - THREE.y vb)
             (THREE.z va - THREE.z vb) in
  let normal :=
    normalize (THREE.mk (THREE.x pb - THREE.x pa) (THREE.y pb - THREE.y pa)
                        (THREE.z pb - THREE.z pa)) in
  let velocityAlongNormal := THREE.dot relativeVelocity normal in
  if Qltb 0 velocityAlongNormal then None
  else
    let restitution := Qmin (Body.restitution A) (Body.restitution B) in
    let impulseStrength :=
      ((- (1 + restitution)) * velocityAlongNormal)
      / (1 / Body.mass A + 1 / Body.mass B) in
    Some (THREE.multiplyScalar normal impulseStrength).

Definition _resolveCollisionDynamic (bodyA : loc) (bodyB : Ref) : M unit :=
  A ← getBody bodyA;
  o ← getObj bodyB;
  match o, bodyB with
  | OBody B, RBody lb =>
      match impulseOf A B with
      | None => mret tt
      | Some impulse =>
          modifyBody bodyA (fun b =>
            let v := Body.velocity b in
            Body.with_velocity b
              (THREE.mk (THREE.x v + THREE.x impulse / Body.mass b)
                        (THREE.y v + THREE.y impulse / Body.mass b)
                        (THREE.z v + THREE.z impulse / Body.mass b)));;
          modifyBody lb (fun b =>
            let v := Body.velocity b in
            Body.with_velocity b
              (THREE.mk (THREE.x v - THREE.x impulse / Body.mass b)
                        (THREE.y v - THREE.y impulse / Body.mass b)
                        (THREE.z v - THREE.z impulse / Body.mass b)));;
          separate bodyA lb A B
      end
  | _, _ =>
      (* [bodyB.velocity] is undefined on a collider: reading its [x]
         throws before anything is written. *)
      throw TypeError
  end.

Definition _handleCollisionEnter (a : loc) (b : Ref) : M unit :=
  o ← getObj b;
  if truthyB (Obj.isStatic o) || truthyB (Obj.isTrigger o)
  then _resolveCollision a b
  else _resolveCollisionDynamic a b.

Definition _handleCollisionStay (a : loc) (b : Ref) : M unit :=
  o ← getObj b;
  if truthyB (Obj.isStatic o) || truthyB (Obj.isTrigger o)
  then _resolveCollision a b
  else _resolveCollisionDynamic a b.

Definition _handleCollisionExit (a : loc) (b : Ref) : M unit := mret tt.

(** The matrix bookkeeping of one pair: returns the transition. *)
Definition visit (bodyA : loc) (other : Ref) : M (option Transition) :=
  A ← getBody bodyA;
  o ← getObj other;
  let isColliding := _checkCollision (OBody A) o in
  m ← gets (fun w => PhysicsSystem.collisionMatrix (this w));
  let r := track (key (Body.id A)) (key (Obj.id o)) isColliding m in
  modifyThis (fun s => PhysicsSystem.with_collisionMatrix s (fst r));;
  mret (snd r).

Definition checkBody (bodyA bodyB : loc) : M unit :=
  t ← visit bodyA (RBody bodyB);
  match t with
  | Some ENTER => _handleCollisionEnter bodyA (RBody bodyB)
  | Some STAY => _handleCollisionStay bodyA (RBody bodyB)
  | Some EXIT => _handleCollisionExit bodyA (RBody bodyB)
  | None => mret tt
  end.

Definition checkCollider (bodyA collider : loc) : M unit :=
  t ← visit bodyA (RCollider collider);
  c ← getCollider collider;
  match t with
  | Some ENTER =>
      if Collider.isTrigger c then invoke (Collider.onTriggerEnter c) bodyA
      else
        _handleCollisionEnter bodyA (RCollider collider);;
        invoke (Collider.onCollisionEnter c) bodyA
  | Some STAY =>
      if Collider.isTrigger c then invoke (Collider.onTriggerStay c) bodyA
      else
        _handleCollisionStay bodyA (RCollider collider);;
        invoke (Collider.onCollisionStay c) bodyA
  | Some EXIT =>
      if Collider.isTrigger c then invoke (Collider.onTriggerExit c) bodyA
      else invoke (Collider.onCollisionExit c) bodyA
  | None => mret tt
  end.

Definition _checkCollisions : M unit :=
  bodies ← gets (fun w => PhysicsSystem.bodies (this w));
  colliders ← gets (fun w => PhysicsSystem.colliders (this w));
  forFrom 0 bodies (fun i bodyA =>
    A ← getBody bodyA;
    if Body.isStatic A then mret tt
    else
      forFrom 0 bodies (fun j bodyB =>
        if Nat.eqb i j then mret tt else checkBody bodyA bodyB);;
      forEach colliders (fun collider => checkCollider bodyA collider)).

(** The body of the integration loop, for a body that is not static. *)
Definition integrate (gravity : THREE.Vector3) (scaledDelta : Q) (body : Body.t)
  : Body.t :=
  let a := Body.acceleration body in
  let a1 := THREE.mk (THREE.x a + THREE.x gravity) (THREE.y a + THREE.y gravity)
                     (THREE.z a + THREE.z gravity) in
  let v := Body.velocity body in
  let v1 := THREE.mk (THREE.x v + THREE.x a1 * scaledDelta)
                     (THREE.y v + THREE.y a1 * scaledDelta)
                     (THREE.z v + THREE.z a1 * scaledDelta) in
  let p := Body.position body in
  let p1 := THREE.mk (THREE.x p + THREE.x v1 * scaledDelta)
                     (THREE.y p + THREE.y v1 * scaledDelta)
                     (THREE.z p + THREE.z v1 * scaledDelta) in
  Body.with_acceleration
    (Body.with_position (Body.with_velocity body v1) p1)
    (THREE.mk 0 0 0).

(** [update(deltaTime)]; [now] is what [performance.now()] answers at the
    end of the step. *)
Definition update (deltaTime now : Q) : M unit :=
  timeScale ← gets (fun w => PhysicsSystem.timeScale (this w));
  let scaledDelta := deltaTime * timeScale in
  if Qltb scaledDelta 0.0001 then mret tt
  else
    bodies ← gets (fun w => PhysicsSystem.bodies (this w));
    forEach bodies (fun body =>
      b ← getBody body;
      if Body.isStatic b then mret tt
      else
        gravity ← gets (fun w => PhysicsSystem.gravity (this w));
        modifyBody body (integrate gravity scaledDelta));;
    _checkCollisions;;
    modifyThis (fun s => PhysicsSystem.with_lastStepTime s now).

(** A run of the host loop: one [update] per frame, each given as its
    [deltaTime] and clock reading.  A frame that throws leaves the world as
    the exception found it; the host's next frame goes on from there. *)
Fixpoint frames (steps : list (Q * Q)) (w : World) : World :=
  match steps with
  | [] => w
  | (deltaTime, now) :: steps' => frames steps' (snd (update deltaTime now w))
  end.

End Simulation.

(** ** Running the model *)

(** A rational stand-in for three.js's [length]: the floor of the square
    root, exact whenever the argument is the square of a rational. *)
Definition Qsqrt (q : Q) : Q :=
  Z.sqrt (Qnum q * QDen q) # Qden q.

(** three.js normalizes with [divideScalar(length() || 1)]; this version is
    exact on every vector of rational length and serves to run the model on
    concrete inputs. *)
Definition normalizeQ (v : THREE.Vector3) : THREE.Vector3 :=
  let length := Qsqrt (THREE.dot v v) in
  THREE.divideScalar v (if truthyQ length then length else 1).

(** ** Notions of the statements *)

(** The momentum [massA * velocityA + massB * velocityB] of two bodies. *)
Definition momentum (A B : Body.t) : THREE.Vector3 :=
  THREE.add (THREE.multiplyScalar (Body.velocity A) (Body.mass A))
            (THREE.multiplyScalar (Body.velocity B) (Body.mass B)).

(** The transitions a sequence of visits yields, each tagged with the pair
    of keys visited. *)
Fixpoint observe (visits : list (string * string * bool))
    (m : gmap string (gmap string bool))
  : list (string * string * option Transition) :=
  match visits with
  | [] => []
  | (a, b, isColliding) :: rest =>
      let r := track a b isColliding m in
      (a, b, snd r) :: observe rest (fst r)
  end.

(** The overlap statuses a sequence of visits holds for the pair [(a, b)],
    and the transitions a sequence of observations holds for it. *)
Definition about {A : Type} (a b : string) (l : list (string * string * A)) : list A :=
  snd <$> filter (fun v => fst v = (a, b)) l.

(** The transitions one pair goes through, from the stored flag [was] and
    the overlap status of each of its visits. *)
Fixpoint transitions (was : option bool) (overlaps : list bool)
  : list (option Transition) :=
  match overlaps with
  | [] => []
  | isColliding :: rest =>
      classify isColliding was :: transitions (Some isColliding) rest
  end.

(** The component of a vector along an axis. *)
Definition along (a : Axis) (v : THREE.Vector3) : Q :=
  match a with
  | AxisX => THREE.x v
  | AxisY => THREE.y v
  | AxisZ => THREE.z v
  end.

(** The ids of the objects of a collection. *)
Definition liveBodyIds (w : World) : list (option string) :=
  (fun l => bodyHeap w !! l ≫= Body.id) <$> PhysicsSystem.bodies (this w).

Definition liveColliderIds (w : World) : list (option string) :=
  (fun l => colliderHeap w !! l ≫= Collider.id) <$> PhysicsSystem.colliders (this w).

(** A world whose only object is the non-static body [b] at [l]. *)
Definition alone (w : World) (l : loc) (b : Body.t) : Prop :=
  PhysicsSystem.bodies (this w) = [l] /\
  PhysicsSystem.colliders (this w) = [] /\
  bodyHeap w !! l = Some b /\
  Body.isStatic b = false.

(** Two worlds hold the same body objects with the same [isStatic] flags. *)
Definition same_flags (w w' : World) : Prop :=
  forall l : loc,
    Body.isStatic <$> bodyHeap w' !! l = Body.isStatic <$> bodyHeap w !! l.

(** From [w] to [w'] no static body has changed in any property. *)
Definition static_kept (w w' : World) : Prop :=
  same_flags w w' /\
  (forall (l : loc) (b : Body.t),
     bodyHeap w !! l = Some b -> Body.isStatic b = true -> bodyHeap w' !! l = Some b).

(** The object at [l], if any, is not static. *)
Definition nonstatic (l : loc) (w : World) : Prop :=
  forall b : Body.t, bodyHeap w !! l = Some b -> Body.isStatic b = false.

(** From every world satisfying [P], the computation [m] ends, normally or
    by an exception, in a world related to it by [R]. *)
Definition sat {A : Type} (P : World -> Prop) (R : World -> World -> Prop)
    (m : M A) : Prop :=
  forall w : World, P w -> R w (snd (m w)).

(** The callback of a trigger volume that answers a transition. *)
Definition triggerCallback (c : Collider.t) (t : option Transition) : option Handler :=
  match t with
  | Some ENTER => Collider.onTriggerEnter c
  | Some STAY => Collider.onTriggerStay c
  | Some EXIT => Collider.onTriggerExit c
  | None => None
  end.

(** [createBody] called once for each of a list of options. *)
Definition createBodies (options : list Body.options) : M unit :=
  forEach options (fun o => createBody o;; mret tt).

(** The id [addBody] and [createBody] generate at a collection of [n]
    bodies. *)
Definition generatedBodyId (n : nat) : option string :=
  Some ("body_" +:+ pretty n).

(** The bodies of the collection are objects of the heap and carry the ids
    generated at collections of 0, 1, 2, ... bodies. *)
Definition generated (w : World) : Prop :=
  (forall l, l ∈ PhysicsSystem.bodies (this w) -> is_Some (bodyHeap w !! l)) /\
  liveBodyIds w =
    generatedBodyId <$> seq 0 (length (PhysicsSystem.bodies (this w))).

(** The events among a sequence of optional transitions. *)
Definition events (l : list (option Transition)) : list Transition :=
  omap (fun t => t) l.


(** ** Further notions *)

(** [dot(relativeVelocity, normal)] as [_resolveCollisionDynamic] computes
    it: the velocity of A relative to B, along the normalized direction from
    A's centre to B's. *)
Definition velocityAlongNormal (normalize : THREE.Vector3 -> THREE.Vector3)
    (A B : Body.t) : Q :=
  THREE.dot
    (THREE.mk (THREE.x (Body.velocity A) - THREE.x (Body.velocity B))
              (THREE.y (Body.velocity A) - THREE.y (Body.velocity B))
              (THREE.z (Body.velocity A) - THREE.z (Body.velocity B)))
    (normalize
       (THREE.mk (THREE.x (Body.position B) - THREE.x (Body.position A))
                 (THREE.y (Body.position B) - THREE.y (Body.position A))
                 (THREE.z (Body.position B) - THREE.z (Body.position A)))).

(** The normal of that computation. *)
Definition normalOf (normalize : THREE.Vector3 -> THREE.Vector3)
    (A B : Body.t) : THREE.Vector3 :=
  normalize
    (THREE.mk (THREE.x (Body.position B) - THREE.x (Body.position A))
              (THREE.y (Body.position B) - THREE.y (Body.position A))
              (THREE.z (Body.position B) - THREE.z (Body.position A))).

(** A vector with one coordinate replaced. *)
Definition withAlong (a : Axis) (v : THREE.Vector3) (q : Q) : THREE.Vector3 :=
  match a with
  | AxisX => THREE.with_x v q
  | AxisY => THREE.with_y v q
  | AxisZ => THREE.with_z v q
  end.

(** A body with one coordinate of its position changed by [f]. *)
Definition shifted (a : Axis) (f : Q -> Q) (b : Body.t) : Body.t :=
  Body.with_position b
    (withAlong a (Body.position b) (f (along a (Body.position b)))).

(** The difference of two vectors. *)
Definition minus (u v : THREE.Vector3) : THREE.Vector3 :=
  THREE.mk (THREE.x u - THREE.x v) (THREE.y u - THREE.y v) (THREE.z u - THREE.z v).

(** The properties of a body that are not its motion. *)
Definition makeup (b : Body.t)
  : option string * Q * Q * Q * bool * string * THREE.Vector3 :=
  (Body.id b, Body.mass b, Body.restitution b, Body.friction b,
   Body.isStatic b, Body.shape b, Body.dimensions b).

(** From [w] to [w'] nothing has changed but the position, velocity and
    acceleration of bodies, the collision matrix, [lastStepTime] and the
    call log. *)
Definition only_motion (w w' : World) : Prop :=
  PhysicsSystem.bodies (this w') = PhysicsSystem.bodies (this w) /\
  PhysicsSystem.colliders (this w') = PhysicsSystem.colliders (this w) /\
  PhysicsSystem.gravity (this w') = PhysicsSystem.gravity (this w) /\
  PhysicsSystem.timeScale (this w') = PhysicsSystem.timeScale (this w) /\
  PhysicsSystem.debugEnabled (this w') = PhysicsSystem.debugEnabled (this w) /\
  colliderHeap w' = colliderHeap w /\
  (forall l : loc, makeup <$> bodyHeap w' !! l = makeup <$> bodyHeap w !! l).

(** Every reference of the two collections is to an object, and every
    collider is a trigger. *)
Definition triggers_only (w : World) : Prop :=
  (forall l, l ∈ PhysicsSystem.bodies (this w) -> is_Some (bodyHeap w !! l)) /\
  (forall c, c ∈ PhysicsSystem.colliders (this w) ->
     exists C, colliderHeap w !! c = Some C /\ Collider.isTrigger C = true).

(** From every world satisfying [P], the computation [m] returns normally,
    with a result satisfying [Q]. *)
Definition completes {A : Type} (P : World -> Prop) (m : M A) (Q : A -> Prop) : Prop :=
  forall w : World, P w -> exists a : A, fst (m w) = inr a /\ Q a.

(** The references a detection step may be given in a world that started
    as [w0]: a body of the heap, or a collider of the heap that is a
    trigger. *)
Definition known (w0 : World) (r : Ref) : Prop :=
  match r with
  | RBody l => is_Some (bodyHeap w0 !! l)
  | RCollider c => exists C, colliderHeap w0 !! c = Some C /\ Collider.isTrigger C = true
  end.

(** ** The host loop *)

(** The part of a scene the frame loop calls: [update(deltaTime,
    elapsedTime)], taken as a computation on the physics world. *)
Module Scene.

Record t : Type := mk {
  update : Q -> Q -> M unit
}.

End Scene.

(** The state of [Engine] (engine/Engine.js) that its frame loop reads and
    writes.  The renderer, the camera, the stats panel and the scheduling of
    the next frame by [requestAnimationFrame] are collaborators that do not
    touch it. *)
Module Engine.

Record t : Type := mk {
  isRunning : bool;
  activeScene : option Scene.t;
  lastTime : Q;
  deltaTime : Q;
  elapsedTime : Q;
  physicsSystem : World
}.

Definition with_physicsSystem (e : t) (w : World) : t :=
  mk (isRunning e) (activeScene e) (lastTime e) (deltaTime e) (elapsedTime e) w.

Section Loop.

Variable normalize : THREE.Vector3 -> THREE.Vector3.

(** [animate()]; [currentTime] is what [performance.now()] answers at the
    start of the frame and [now] what it answers at the end of the physics
    step.  An exception of the physics step or of the scene ends the frame
    where it is thrown. *)
Definition animate (currentTime now : Q) (e : t) : (Error + unit) * t :=
  if negb (isRunning e) then (inr tt, e)
  else
    let deltaTime := (currentTime - lastTime e) / 1000 in
    let e1 :=
      mk (isRunning e) (activeScene e) currentTime deltaTime
         (elapsedTime e + deltaTime) (physicsSystem e) in
    match update normalize deltaTime now (physicsSystem e1) with
    | (inl err, w) => (inl err, with_physicsSystem e1 w)
    | (inr _, w) =>
        match activeScene e1 with
        | Some scene =>
            let r := Scene.update scene deltaTime (elapsedTime e1) w in
            (fst r, with_physicsSystem e1 (snd r))
        | None => (inr tt, with_physicsSystem e1 w)
        end
    end.

(** A run of frames, each given by its two clock readings; as in the
    browser, a frame that throws does not stop the following ones, which
    were scheduled before it ran. *)
Fixpoint animations (readings : list (Q * Q)) (e : t) : t :=
  match readings with
  | [] => e
  | (currentTime, now) :: rest => animations rest (snd (animate currentTime now e))
  end.

End Loop.

End Engine.
(** ** Concrete worlds *)

(** [new PhysicsSystem()] *)
Definition emptyWorld : World := new_world PhysicsSystem.no_options.

(** [createBody({ id: "", mass: 0, restitution: 0, friction: 0 })] *)
Definition falsyOptions : Body.options :=
  Body.mkOptions (Some ""%string) None None None (Some 0) (Some 0) (Some 0)
                 None None None.

(** A unit box whose penetration into [tieWall] is 1/2 along x and along
    y, and 5/2 along z. *)
Definition tieBody : Body.t :=
  Body.mk (Some "body_0"%string) (THREE.mk 0.5 0.5 0) (THREE.mk (-1) (-1) 0)
          THREE.zero 1.0 0.3 0.5 false "box" (THREE.mk 1 1 1).

Definition tieWall : Obj :=
  OBody (Body.mk (Some "body_1"%string) THREE.zero THREE.zero THREE.zero
                 1.0 0.3 0.5 true "box" (THREE.mk 1 1 4)).

(** A unit box whose penetration into [tieFloor] is 5/2 along x, and 1/2
    along y and along z. *)
Definition tieBody2 : Body.t :=
  Body.mk (Some "body_0"%string) (THREE.mk 0 0.5 0.5) (THREE.mk 0 (-1) (-1))
          THREE.zero 1.0 0.3 0.5 false "box" (THREE.mk 1 1 1).

Definition tieFloor : Obj :=
  OBody (Body.mk (Some "body_1"%string) THREE.zero THREE.zero THREE.zero
                 1.0 0.3 0.5 true "box" (THREE.mk 4 1 1)).

(** Four frames of two bodies scanning each other: apart, overlapping twice,
    apart. *)
Definition fourFrames : list (string * string * bool) :=
  [ ("body_0", "body_1", false); ("body_1", "body_0", false);
    ("body_0", "body_1", true);  ("body_1", "body_0", true);
    ("body_0", "body_1", true);  ("body_1", "body_0", true);
    ("body_0", "body_1", false); ("body_1", "body_0", false) ]%string.

(** Two dynamic unit boxes half a unit apart along x, after one frame. *)
Definition twoBoxes : M (loc * loc) :=
  a ← createBody Body.no_options;
  b ← createBody
        (Body.mkOptions None (Some (THREE.mk 0.5 0 0)) None None None None None
                        None None None);
  update normalizeQ (1 # 60) 1000;;
  mret (a, b).

Definition twoBoxesWorld : World := snd (twoBoxes emptyWorld).

(** Two default bodies, the first removed, then a third created. *)
Definition bodyIdReuse : M (loc * loc) :=
  b0 ← createBody Body.no_options;
  b1 ← createBody Body.no_options;
  removeBody b0;;
  b2 ← createBody Body.no_options;
  mret (b1, b2).

(** The same with bodies made by the caller and handed to [addBody]. *)
Definition plainBody : Body.t :=
  Body.mk None THREE.zero THREE.zero THREE.zero 1 0.3 0.5 false "box"
          (THREE.mk 1 1 1).

Definition addedIdReuse : M (loc * loc) :=
  b0 ← newBody plainBody;
  addBody b0;;
  b1 ← newBody plainBody;
  addBody b1;;
  removeBody b0;;
  b2 ← newBody plainBody;
  addBody b2;;
  mret (b1, b2).

Definition colliderIdReuse : M (loc * loc) :=
  c0 ← createCollider Collider.no_options;
  c1 ← createCollider Collider.no_options;
  removeCollider c0;;
  c2 ← createCollider Collider.no_options;
  mret (c1, c2).

(** A default body inside a default solid collider that listens to
    [onCollisionEnter] with handler 7, stepped once at 60 frames a second. *)
Definition solidColliderFrame : M unit :=
  createBody Body.no_options;;
  createCollider
    (Collider.mkOptions None None None None None (Some 7%nat) None None None
                        None None);;
  update normalizeQ (1 # 60) 1000.

(** Two overlapping boxes of masses 2 and 3 on the x axis, with velocities
    -1 and 1 along it: the relative velocity [vA - vB] along the normal from
    the first to the second is -2. *)
Definition headOn : M (loc * loc) :=
  a ← createBody
        (Body.mkOptions None None (Some (THREE.mk (-1) 0 0)) None (Some 2) None None
                        None None None);
  b ← createBody
        (Body.mkOptions None (Some (THREE.mk 0.5 0 0)) (Some (THREE.mk 1 0 0)) None
                        (Some 3) None None None None None);
  mret (a, b).

Definition headOnWorld : World := snd (headOn emptyWorld).

(** A default body dropped from height 5 in an otherwise empty world. *)
Definition fallingBody : Body.t :=
  bodyLiteral 0
    (Body.mkOptions None (Some (THREE.mk 0 5 0)) None None None None None None
                    None None).

Definition fallingWorld : World :=
  snd (createBody
         (Body.mkOptions None (Some (THREE.mk 0 5 0)) None None None None None None
                         None None)
         emptyWorld).

(** A static floor, a default body resting into it and a trigger volume
    around both. *)
Definition floorOptions : Body.options :=
  Body.mkOptions None None None None None None None (Some true) None
                 (Some (THREE.mk 10 1 10)).

Definition floorScene : M unit :=
  createBody floorOptions;;
  createBody
    (Body.mkOptions None (Some (THREE.mk 0 0.9 0)) None None None None None None
                    None None);;
  createCollider
    (Collider.mkOptions None None None (Some (THREE.mk 4 4 4)) (Some true)
                        None None None (Some 1%nat) (Some 2%nat) (Some 3%nat));;
  mret tt.

Definition floorWorld : World := snd (floorScene emptyWorld).

(** A default body dropped from height 5 through a unit trigger volume at
    height 3 whose three trigger callbacks are the handlers 1, 2 and 3. *)
Definition dropThroughTrigger : M unit :=
  createBody
    (Body.mkOptions None (Some (THREE.mk 0 5 0)) None None None None None None
                    None None);;
  createCollider
    (Collider.mkOptions None (Some (THREE.mk 0 3 0)) None None (Some true)
                        None None None (Some 1%nat) (Some 2%nat) (Some 3%nat));;
  mret tt.

Definition tenthsOfASecond (n : nat) : list (Q * Q) :=
  (fun i => (1 # 10, inject_Z (Z.of_nat i))) <$> seq 1 n.

(** The two bodies of [headOn]. *)
Definition headOnA : Body.t :=
  bodyLiteral 0
    (Body.mkOptions None None (Some (THREE.mk (-1) 0 0)) None (Some 2) None None
                    None None None).

Definition headOnB : Body.t :=
  bodyLiteral 1
    (Body.mkOptions None (Some (THREE.mk 0.5 0 0)) (Some (THREE.mk 1 0 0)) None
                    (Some 3) None None None None None).

(** The same boxes with the velocities exchanged: each moves towards the
    other, and the relative velocity [vA - vB] along the normal is 2. *)
Definition closingA : Body.t :=
  bodyLiteral 0
    (Body.mkOptions None None (Some (THREE.mk 1 0 0)) None (Some 2) None None
                    None None None).

Definition closingB : Body.t :=
  bodyLiteral 1
    (Body.mkOptions None (Some (THREE.mk 0.5 0 0)) (Some (THREE.mk (-1) 0 0)) None
                    (Some 3) None None None None None).

Definition closingWorld : World :=
  mkWorld (<[1%nat := closingB]> (<[0%nat := closingA]> ∅)) ∅
          (PhysicsSystem.with_bodies (PhysicsSystem.constructor PhysicsSystem.no_options)
             [0%nat; 1%nat])
          [].

(** A static floor inside a solid collider that listens to
    [onCollisionEnter]. *)
Definition staticOnly : M unit :=
  createBody floorOptions;;
  createCollider
    (Collider.mkOptions None None None None None (Some 7%nat) None None None
                        None None);;
  mret tt.

Definition staticOnlyWorld : World := snd (staticOnly emptyWorld).

(** A static floor and a default body resting into it. *)
Definition restingBody : Body.t :=
  bodyLiteral 1
    (Body.mkOptions None (Some (THREE.mk 0 0.9 0)) None None None None None None
                    None None).

Definition resting : M unit :=
  createBody floorOptions;;
  createBody
    (Body.mkOptions None (Some (THREE.mk 0 0.9 0)) None None None None None None
                    None None);;
  mret tt.

Definition restingWorld : World := snd (resting emptyWorld).

(** The fall of [dropThroughTrigger] after six frames: the body is inside
    the trigger volume. *)
Definition insideTriggerWorld : World :=
  frames normalizeQ (tenthsOfASecond 6) (snd (dropThroughTrigger emptyWorld)).

(** The same object handed to [addBody] twice. *)
Definition addedTwice : M loc :=
  b ← newBody plainBody;
  addBody b;;
  addBody b.

Definition addedTwiceWorld : World := snd (addedTwice emptyWorld).

(** A running engine without a scene, around [fallingWorld], whose last
    frame was at one second. *)
Definition runningEngine : Engine.t :=
  Engine.mk true None 1000 0 0 fallingWorld.

(** ** Basic facts *)

Lemma Qltb_lt (a b : Q) : Qltb a b = true <-> a < b.
Proof. unfold Qltb, Qlt. apply Z.ltb_lt. Qed.

Lemma Qltb_ge (a b : Q) : Qltb a b = false <-> b <= a.
Proof. unfold Qltb, Qle. rewrite Z.ltb_ge. reflexivity. Qed.

Lemma truthyQ_false (q : Q) : truthyQ q = false <-> q == 0.
Proof.
  unfold truthyQ. rewrite negb_false_iff. apply Qeq_bool_iff.
Qed.

Lemma truthyQ_true (q : Q) : truthyQ q = true <-> ~ q == 0.
Proof.
  unfold truthyQ. rewrite negb_true_iff. split.
  - intros H E. apply Qeq_bool_iff in E. congruence.
  - intros H. destruct (Qeq_bool q 0) eqn:E; [|reflexivity].
    apply Qeq_bool_iff in E. contradiction.
Qed.

Lemma orQ_falsy (q d : Q) : q == 0 -> orQ (Some q) d = d.
Proof. intros H. apply truthyQ_false in H. unfold orQ. rewrite H. reflexivity. Qed.

Lemma orQ_nonzero (o : option Q) (d : Q) : ~ d == 0 -> ~ orQ o d == 0.
Proof.
  intros Hd. destruct o as [q|]; simpl; [|exact Hd].
  destruct (truthyQ q) eqn:E; [|exact Hd]. apply truthyQ_true. exact E.
Qed.

Lemma truthyS_orS (o : option string) (d : string) :
  truthyS d = true -> truthyS (orS o d) = true.
Proof.
  intros Hd. destruct o as [s|]; simpl; [|exact Hd].
  destruct (truthyS s) eqn:E; [exact E|exact Hd].
Qed.

(** ** Running computations *)

Lemma bind_run {A B : Type} (m : M A) (k : A -> M B) (w w' : World) (a : A) :
  m w = (inr a, w') -> (m ≫= k) w = k a w'.
Proof. intros H. unfold mbind, M_bind. rewrite H. reflexivity. Qed.

Lemma bind_throw {A B : Type} (m : M A) (k : A -> M B) (w w' : World) (e : Error) :
  m w = (inl e, w') -> (m ≫= k) w = (inl e, w').
Proof. intros H. unfold mbind, M_bind. rewrite H. reflexivity. Qed.

Lemma bind_gets {A B : Type} (f : World -> A) (k : A -> M B) (w : World) :
  (gets f ≫= k) w = k (f w) w.
Proof. reflexivity. Qed.

Lemma getBody_run (w : World) (l : loc) (b : Body.t) :
  bodyHeap w !! l = Some b -> getBody l w = (inr b, w).
Proof. intros H. unfold getBody. rewrite H. reflexivity. Qed.

Lemma modifyBody_run (w : World) (l : loc) (b : Body.t) (f : Body.t -> Body.t) :
  bodyHeap w !! l = Some b ->
  modifyBody l f w = (inr tt, with_bodyHeap w (<[l := f b]> (bodyHeap w))).
Proof.
  intros H. unfold modifyBody. rewrite (bind_run _ _ w w b (getBody_run w l b H)).
  reflexivity.
Qed.

(** ** Defaults of the factories *)

Lemma createBody_creates (options : Body.options) (w : World) :
  let n := length (PhysicsSystem.bodies (this w)) in
  let l := fresh (dom (bodyHeap w)) in
  createBody options w =
    (inr l,
     with_this
       (with_bodyHeap w (<[l := bodyLiteral n options]> (bodyHeap w)))
       (PhysicsSystem.with_bodies (this w) (PhysicsSystem.bodies (this w) ++ [l]))).
Proof.
  intros n l.
  unfold createBody, newBody, addBody, getBody, modifyThis, modify, gets, mbind, M_bind, mret, M_ret.
  cbn [bodyHeap with_bodyHeap this]. fold l n. rewrite lookup_insert_eq.
  assert (Hid : truthyId (Body.id (bodyLiteral n options)) = true).
  { simpl. apply truthyS_orS. reflexivity. }
  rewrite Hid. simpl. reflexivity.
Qed.

(** C10: [createBody] replaces a falsy option by its default, not only an
    absent one: a supplied mass 0 gives 1.0, restitution 0 gives 0.3,
    friction 0 gives 0.5 and the empty id gives the generated id; the
    constructor replaces a supplied timeScale 0 by 1.0.  No body made by
    [createBody] has restitution 0 or friction 0. *)
Theorem falsy_options_take_the_defaults :
  (forall (w : World) (options : Body.options),
     exists (l : loc) (w' : World) (b : Body.t),
       createBody options w = (inr l, w') /\
       bodyHeap w' !! l = Some b /\
       (forall q, Body.o_mass options = Some q -> q == 0 -> Body.mass b = 1.0) /\
       (forall q, Body.o_restitution options = Some q -> q == 0 ->
          Body.restitution b = 0.3) /\
       (forall q, Body.o_friction options = Some q -> q == 0 ->
          Body.friction b = 0.5) /\
       (Body.o_id options = Some ""%string ->
          Body.id b =
            Some ("body_" +:+ pretty (length (PhysicsSystem.bodies (this w))))) /\
       ~ Body.restitution b == 0 /\
       ~ Body.friction b == 0) /\
  (forall (options : PhysicsSystem.options) (q : Q),
     PhysicsSystem.o_timeScale options = Some q -> q == 0 ->
     PhysicsSystem.timeScale (PhysicsSystem.constructor options) = 1.0).
Proof.
  split.
  - intros w options. eexists _, _, _. split; [apply createBody_creates|].
    split; [simpl; apply lookup_insert_eq|].
    simpl. repeat split.
    + intros q -> Hq. apply orQ_falsy, Hq.
    + intros q -> Hq. apply orQ_falsy, Hq.
    + intros q -> Hq. apply orQ_falsy, Hq.
    + intros ->. reflexivity.
    + apply orQ_nonzero. discriminate.
    + apply orQ_nonzero. discriminate.
  - intros options q Hts Hq. simpl. rewrite Hts. apply orQ_falsy, Hq.
Qed.

(** The defaults at [{ id: "", mass: 0, restitution: 0, friction: 0 }] and at
    [{ timeScale: 0 }]. *)
Lemma falsy_options_witness :
  exists (l : loc) (w' : World) (b : Body.t),
    createBody falsyOptions emptyWorld = (inr l, w') /\
    bodyHeap w' !! l = Some b /\
    Body.mass b = 1.0 /\ Body.restitution b = 0.3 /\ Body.friction b = 0.5 /\
    Body.id b = Some "body_0"%string /\
    PhysicsSystem.timeScale
      (PhysicsSystem.constructor (PhysicsSystem.mkOptions None (Some 0) None)) = 1.0.
Proof.
  destruct falsy_options_take_the_defaults as [Hbody Hsystem].
  destruct (Hbody emptyWorld falsyOptions)
    as (l & w' & b & Hrun & Hb & Hm & Hr & Hf & Hi & _).
  exists l, w', b.
  split; [exact Hrun|]. split; [exact Hb|].
  split; [apply (Hm 0); reflexivity|].
  split; [apply (Hr 0); reflexivity|].
  split; [apply (Hf 0); reflexivity|].
  split; [apply Hi; reflexivity|].
  apply (Hsystem _ 0); reflexivity.
Defined.

(** ** Generated ids *)

Lemma generatedBodyId_inj : Inj (=) (=) generatedBodyId.
Proof.
  intros i j H. unfold generatedBodyId in H. injection H as H.
  apply (inj pretty). exact H.
Qed.

(** Without a removal and without ids supplied by the caller, the ids
    [createBody] generates are "body_0", "body_1", ... in order. *)
Lemma createBody_generated (o : Body.options) (w : World) :
  Body.o_id o = None ->
  generated w ->
  generated (snd (createBody o w)).
Proof.
  intros Ho [Hheap Hids]. rewrite createBody_creates. cbn [snd].
  set (n := length (PhysicsSystem.bodies (this w))).
  set (l := fresh (dom (bodyHeap w))).
  assert (Hl : bodyHeap w !! l = None).
  { apply not_elem_of_dom. apply is_fresh. }
  split.
  - cbn [this with_this bodyHeap with_bodyHeap PhysicsSystem.bodies
         PhysicsSystem.with_bodies].
    intros l' Hin. apply elem_of_app in Hin as [Hin|Hin].
    + destruct (decide (l = l')) as [<-|Hne].
      * rewrite lookup_insert_eq. eauto.
      * rewrite lookup_insert_ne by exact Hne. apply Hheap, Hin.
    + apply list_elem_of_singleton in Hin as ->. rewrite lookup_insert_eq. eauto.
  - unfold liveBodyIds in *.
    cbn [this with_this bodyHeap with_bodyHeap PhysicsSystem.bodies
         PhysicsSystem.with_bodies].
    rewrite length_app, fmap_app. cbn [length]. fold n.
    replace (n + 1)%nat with (S n) by lia. rewrite seq_S, fmap_app. f_equal.
    + fold n in Hids. rewrite <- Hids. apply list_fmap_ext. intros i l' Hl'.
      assert (Hne : l <> l').
      { intros <-. apply list_elem_of_lookup_2 in Hl'. apply Hheap in Hl'.
        rewrite Hl in Hl'. destruct Hl' as [? ?]. discriminate. }
      rewrite lookup_insert_ne by exact Hne. reflexivity.
    + cbn [fmap list_fmap]. rewrite lookup_insert_eq. cbn [mbind option_bind].
      unfold bodyLiteral. cbn [Body.id]. rewrite Ho. reflexivity.
Qed.

Lemma createBodies_generated (os : list Body.options) :
  Forall (fun o => Body.o_id o = None) os ->
  forall w, generated w -> generated (snd (createBodies os w)).
Proof.
  unfold createBodies. induction 1 as [|o os Ho _ IH]; intros w Hw; [exact Hw|].
  cbn [forEach]. pose proof (createBody_creates o w) as Hrun. cbv zeta in Hrun.
  pose proof (createBody_generated o w Ho Hw) as Hw1. rewrite Hrun in Hw1.
  erewrite bind_run; [|erewrite bind_run; [reflexivity|exact Hrun]].
  apply IH. exact Hw1.
Qed.

(** What does hold of C2: from a new system, any number of [createBody]
    calls that supply no id and are not interleaved with removals give
    pairwise distinct ids. *)
Lemma ids_are_distinct_without_removal (os : list Body.options) :
  Forall (fun o => Body.o_id o = None) os ->
  NoDup (liveBodyIds (snd (createBodies os emptyWorld))).
Proof.
  intros Hos.
  assert (H0 : generated emptyWorld).
  { split; [intros l Hl; apply elem_of_nil in Hl; contradiction|reflexivity]. }
  destruct (createBodies_generated os Hos emptyWorld H0) as [_ Hids].
  rewrite Hids. apply (NoDup_fmap_2 generatedBodyId). apply NoDup_seq.
Qed.

(** C2 fails on the code: after two bodies are created and the first is
    removed, the next body is given the id "body_1" of the body still in
    the collection, whether it comes from [createBody] or is handed to
    [addBody] without an id; colliders do the same with "collider_1". *)
Theorem generated_id_repeats_a_live_id_after_a_removal :
  (let r := bodyIdReuse emptyWorld in
   fst r = inr (1%nat, 2%nat) /\
   PhysicsSystem.bodies (this (snd r)) = [1%nat; 2%nat] /\
   liveBodyIds (snd r) = [Some "body_1"; Some "body_1"]%string) /\
  (let r := addedIdReuse emptyWorld in
   fst r = inr (1%nat, 2%nat) /\
   PhysicsSystem.bodies (this (snd r)) = [1%nat; 2%nat] /\
   liveBodyIds (snd r) = [Some "body_1"; Some "body_1"]%string) /\
  (let r := colliderIdReuse emptyWorld in
   fst r = inr (1%nat, 2%nat) /\
   PhysicsSystem.colliders (this (snd r)) = [1%nat; 2%nat] /\
   liveColliderIds (snd r) = [Some "collider_1"; Some "collider_1"]%string).
Proof. repeat split; vm_compute; reflexivity. Qed.

(** ** Removal *)

Lemma indexOf_None (l : list loc) (x : loc) : indexOf l x = None <-> x ∉ l.
Proof.
  induction l as [|y l IH]; simpl.
  - split; [intros _; apply not_elem_of_nil|reflexivity].
  - destruct (decide (y = x)) as [->|Hne].
    + split; [discriminate|]. intros H. exfalso. apply H. left.
    + rewrite fmap_None, IH, not_elem_of_cons.
      split; [intros H; split; [congruence|exact H]|intros [_ H]; exact H].
Qed.

Lemma indexOf_Some (l : list loc) (x : loc) :
  x ∈ l -> exists i, indexOf l x = Some i /\ l !! i = Some x.
Proof.
  induction l as [|y l IH]; simpl; intros H.
  - apply elem_of_nil in H. contradiction.
  - destruct (decide (y = x)) as [->|Hne].
    + exists 0%nat. split; reflexivity.
    + apply elem_of_cons in H as [->|H]; [contradiction|].
      destruct (IH H) as (i & Hi & Hl). exists (S i). rewrite Hi. split; [reflexivity|exact Hl].
Qed.



(** ** The epsilon guard of [update] *)

(** C9: when [deltaTime * timeScale < 0.0001] (zero and negative deltas
    included), [update] returns at once: bodies, colliders, both collections,
    the collision matrix and the call log are exactly as before, so nothing
    was integrated, resolved or called back. *)
Theorem update_below_epsilon_changes_nothing
    (normalize : THREE.Vector3 -> THREE.Vector3) (deltaTime now : Q) (w : World) :
  deltaTime * PhysicsSystem.timeScale (this w) < 0.0001 ->
  update normalize deltaTime now w = (inr tt, w).
Proof.
  intros H. apply Qltb_lt in H.
  unfold update, mbind, M_bind, gets. simpl. rewrite H. reflexivity.
Qed.

(** [update(0)] on a new system. *)
Lemma update_below_epsilon_witness :
  update normalizeQ 0 1000 emptyWorld = (inr tt, emptyWorld).
Proof.
  apply (update_below_epsilon_changes_nothing normalizeQ 0 1000 emptyWorld).
  reflexivity.
Defined.

(** ** Free fall *)

Section FreeFall.

Variable normalize : THREE.Vector3 -> THREE.Vector3.


Lemma integrate_isStatic (g : THREE.Vector3) (s : Q) (b : Body.t) :
  Body.isStatic (integrate g s b) = Body.isStatic b.
Proof. reflexivity. Qed.

(** One frame of a body that is alone is its integration step: the
    collision pass finds no pair to visit. *)
Lemma update_alone
    (deltaTime now : Q) (w : World) (l : loc) (b : Body.t) :
  alone w l b ->
  0.0001 <= deltaTime * PhysicsSystem.timeScale (this w) ->
  let b' := integrate (PhysicsSystem.gravity (this w))
                      (deltaTime * PhysicsSystem.timeScale (this w)) b in
  update normalize deltaTime now w =
    (inr tt,
     with_this (with_bodyHeap w (<[l := b']> (bodyHeap w)))
               (PhysicsSystem.with_lastStepTime (this w) now)).
Proof.
  intros (Hbodies & Hcolliders & Hb & Hstatic) Hdt b'.
  apply Qltb_ge in Hdt.
  unfold update. rewrite bind_gets. cbv beta zeta. rewrite Hdt.
  rewrite bind_gets. rewrite Hbodies.
  assert (Hloop :
    forEach [l] (fun body =>
      b0 ← getBody body;
      if Body.isStatic b0 then mret tt
      else
        gravity ← gets (fun w0 => PhysicsSystem.gravity (this w0));
        modifyBody body
          (integrate gravity (deltaTime * PhysicsSystem.timeScale (this w)))) w
    = (inr tt, with_bodyHeap w (<[l := b']> (bodyHeap w)))).
  { simpl forEach.
    erewrite bind_run; [reflexivity|].
    rewrite (bind_run _ _ w w b (getBody_run w l b Hb)). rewrite Hstatic.
    rewrite bind_gets. apply modifyBody_run. exact Hb. }
  rewrite (bind_run _ _ _ _ _ Hloop).
  set (w1 := with_bodyHeap w (<[l := b']> (bodyHeap w))).
  assert (Hb1 : bodyHeap w1 !! l = Some b') by apply lookup_insert_eq.
  assert (Hcheck : _checkCollisions normalize w1 = (inr tt, w1)).
  { unfold _checkCollisions. rewrite !bind_gets.
    change (PhysicsSystem.bodies (this w1)) with (PhysicsSystem.bodies (this w)).
    change (PhysicsSystem.colliders (this w1)) with (PhysicsSystem.colliders (this w)).
    rewrite Hbodies, Hcolliders. simpl forFrom.
    erewrite bind_run; [reflexivity|].
    rewrite (bind_run _ _ w1 w1 b' (getBody_run w1 l b' Hb1)).
    unfold b' at 1. rewrite integrate_isStatic, Hstatic.
    reflexivity. }
  rewrite (bind_run _ _ _ _ _ Hcheck). reflexivity.
Qed.

(** The closed form of [n] frames of a body that is alone, from any initial
    velocity. *)
Lemma frames_alone (deltaTime : Q)
    (nows : list Q) :
  forall (w : World) (l : loc) (b : Body.t),
    alone w l b ->
    0.0001 <= deltaTime * PhysicsSystem.timeScale (this w) ->
    THREE.y (Body.acceleration b) == 0 ->
    let s := deltaTime * PhysicsSystem.timeScale (this w) in
    let g := THREE.y (PhysicsSystem.gravity (this w)) in
    let n := inject_Z (Z.of_nat (length nows)) in
    exists b' : Body.t,
      alone (frames normalize (map (pair deltaTime) nows) w) l b' /\
      THREE.y (Body.acceleration b') == 0 /\
      THREE.y (Body.velocity b') == THREE.y (Body.velocity b) + g * s * n /\
      THREE.y (Body.position b') ==
        THREE.y (Body.position b) + THREE.y (Body.velocity b) * s * n
        + g * s * s * n * (n + 1) / 2.
Proof.
  induction nows as [|now nows IH]; intros w l b Halone Hdt Hacc s g n.
  - exists b. subst n. simpl. split; [exact Halone|]. split; [exact Hacc|].
    split; [ring|]. field.
  - simpl frames. rewrite (update_alone deltaTime now w l b Halone Hdt).
    cbn [snd].
    set (b1 := integrate (PhysicsSystem.gravity (this w))
                 (deltaTime * PhysicsSystem.timeScale (this w)) b).
    set (w1 := with_this _ _).
    assert (Halone1 : alone w1 l b1).
    { destruct Halone as (H1 & H2 & H3 & H4). repeat split.
      - exact H1.
      - exact H2.
      - apply lookup_insert_eq.
      - exact H4. }
    destruct (IH w1 l b1 Halone1 Hdt ltac:(reflexivity)) as (b' & Hb' & Ha' & Hv' & Hp').
    exists b'. split; [exact Hb'|]. split; [exact Ha'|].
    change (PhysicsSystem.timeScale (this w1)) with (PhysicsSystem.timeScale (this w)) in Hv', Hp'.
    change (PhysicsSystem.gravity (this w1)) with (PhysicsSystem.gravity (this w)) in Hv', Hp'.
    fold s g in Hv', Hp'.
    assert (Hn : n == inject_Z (Z.of_nat (length nows)) + 1).
    { subst n. simpl length. rewrite Nat2Z.inj_succ, <- Z.add_1_r, inject_Z_plus. reflexivity. }
    assert (Hv1 : THREE.y (Body.velocity b1) == THREE.y (Body.velocity b) + g * s).
    { subst b1. simpl. fold s g. rewrite Hacc. ring. }
    assert (Hp1 : THREE.y (Body.position b1) ==
                  THREE.y (Body.position b) + (THREE.y (Body.velocity b) + g * s) * s).
    { subst b1. simpl. fold s g. rewrite Hacc. ring. }
    split.
    + rewrite Hv', Hv1, Hn. ring.
    + rewrite Hp', Hp1, Hv1, Hn. field.
Qed.


End FreeFall.


(** ** Static bodies *)

Section StaticBodies.

Variable normalize : THREE.Vector3 -> THREE.Vector3.


Lemma static_kept_refl (w : World) : static_kept w w.
Proof. split; [intros l; reflexivity|intros l b H _; exact H]. Qed.

Lemma static_kept_trans (w1 w2 w3 : World) :
  static_kept w1 w2 -> static_kept w2 w3 -> static_kept w1 w3.
Proof.
  intros [F12 S12] [F23 S23]. split.
  - intros l. rewrite F23. apply F12.
  - intros l b Hb Hs. apply S23; [apply S12; assumption|exact Hs].
Qed.

Lemma static_kept_heap (w w' : World) :
  bodyHeap w' = bodyHeap w -> static_kept w w'.
Proof.
  intros E. split; [intros l; rewrite E; reflexivity|intros l b H _; rewrite E; exact H].
Qed.

Lemma nonstatic_kept (l : loc) (w w' : World) :
  nonstatic l w -> static_kept w w' -> nonstatic l w'.
Proof.
  intros Hn [F _] b Hb. specialize (F l). rewrite Hb in F. simpl in F.
  destruct (bodyHeap w !! l) as [b0|] eqn:E; [|discriminate].
  simpl in F. injection F as F. rewrite F. apply Hn. exact E.
Qed.

(** Sequencing, for a precondition that [static_kept] maintains. *)
Lemma sat_bind {A B : Type} (P : World -> Prop) (m : M A) (k : A -> M B) :
  (forall w w', P w -> static_kept w w' -> P w') ->
  sat P static_kept m ->
  (forall a, sat P static_kept (k a)) ->
  sat P static_kept (m ≫= k).
Proof.
  intros HP Hm Hk w Pw. specialize (Hm w Pw).
  unfold mbind, M_bind. destruct (m w) as [[e|a] w'] eqn:E; simpl in Hm |- *.
  - exact Hm.
  - apply (static_kept_trans w w'); [exact Hm|]. apply Hk. apply (HP w); assumption.
Qed.

Lemma sat_heap {A : Type} (P : World -> Prop) (m : M A) :
  (forall w, bodyHeap (snd (m w)) = bodyHeap w) -> sat P static_kept m.
Proof. intros H w _. apply static_kept_heap, H. Qed.

Lemma sat_weaken {A : Type} (P P' : World -> Prop) (m : M A) :
  (forall w, P' w -> P w) -> sat P static_kept m -> sat P' static_kept m.
Proof. intros H Hm w Pw. apply Hm, H, Pw. Qed.

Lemma sat_forEach {A : Type} (P : World -> Prop) (l : list A) (f : A -> M unit) :
  (forall w w', P w -> static_kept w w' -> P w') ->
  (forall a, sat P static_kept (f a)) ->
  sat P static_kept (forEach l f).
Proof.
  intros HP Hf. induction l as [|a l IH]; simpl.
  - intros w _. apply static_kept_refl.
  - apply sat_bind; [exact HP|apply Hf|intros _; exact IH].
Qed.

Lemma sat_forFrom {A : Type} (P : World -> Prop) (l : list A) (f : nat -> A -> M unit) :
  (forall w w', P w -> static_kept w w' -> P w') ->
  (forall i a, sat P static_kept (f i a)) ->
  forall i0, sat P static_kept (forFrom i0 l f).
Proof.
  intros HP Hf. induction l as [|a l IH]; intros i0; simpl.
  - intros w _. apply static_kept_refl.
  - apply sat_bind; [exact HP|apply Hf|intros _; apply IH].
Qed.

Lemma stable_True (w w' : World) : True -> static_kept w w' -> True.
Proof. intros _ _. exact I. Qed.

Lemma stable_nonstatic2 (a b : loc) (w w' : World) :
  nonstatic a w /\ nonstatic b w -> static_kept w w' ->
  nonstatic a w' /\ nonstatic b w'.
Proof. intros [Ha Hb] H. split; eapply nonstatic_kept; eassumption. Qed.

Lemma sat_ret {A : Type} (P : World -> Prop) (a : A) : sat P static_kept (mret a).
Proof. intros w _. apply static_kept_refl. Qed.

Lemma sat_throw {A : Type} (P : World -> Prop) (e : Error) :
  sat P static_kept (throw (A := A) e).
Proof. intros w _. apply static_kept_refl. Qed.

Lemma sat_gets {A : Type} (P : World -> Prop) (f : World -> A) :
  sat P static_kept (gets f).
Proof. intros w _. apply static_kept_refl. Qed.

Lemma sat_modifyThis (P : World -> Prop) (f : PhysicsSystem.t -> PhysicsSystem.t) :
  sat P static_kept (modifyThis f).
Proof. apply sat_heap. reflexivity. Qed.

(** A write into a body that is not static, by a function that leaves the
    flag alone, keeps every static body. *)
Lemma sat_modifyBody (l : loc) (f : Body.t -> Body.t) :
  (forall b, Body.isStatic (f b) = Body.isStatic b) ->
  sat (nonstatic l) static_kept (modifyBody l f).
Proof.
  intros Hf w Hn.
  destruct (bodyHeap w !! l) as [b|] eqn:E.
  2:{ unfold modifyBody, getBody, mbind, M_bind. rewrite E. apply static_kept_refl. }
  rewrite (modifyBody_run w l b f E). cbn [snd]. unfold static_kept, same_flags.
  cbn [bodyHeap with_bodyHeap].
  split.
  - intros l'. destruct (decide (l = l')) as [<-|Hne].
    + rewrite lookup_insert_eq, E. simpl. rewrite Hf. reflexivity.
    + rewrite lookup_insert_ne by exact Hne. reflexivity.
  - intros l' b' Hb' Hs. destruct (decide (l = l')) as [<-|Hne].
    + rewrite E in Hb'. injection Hb' as <-. rewrite (Hn b E) in Hs. discriminate.
    + rewrite lookup_insert_ne by exact Hne. exact Hb'.
Qed.

Lemma resolveAgainst_isStatic (s : Obj) (b : Body.t) :
  Body.isStatic (resolveAgainst s b) = Body.isStatic b.
Proof.
  unfold resolveAgainst. cbv zeta.
  destruct (smallestOverlapAxis _);
    match goal with |- context [if ?c then _ else _] => destruct c end; reflexivity.
Qed.

Lemma getBody_heap (l : loc) (w : World) : snd (getBody l w) = w.
Proof. unfold getBody. destruct (bodyHeap w !! l); reflexivity. Qed.

Lemma getObj_heap (r : Ref) (w : World) : snd (getObj r w) = w.
Proof.
  destruct r as [l|l]; unfold getObj, getBody, getCollider, mbind, M_bind.
  - destruct (bodyHeap w !! l); reflexivity.
  - destruct (colliderHeap w !! l); reflexivity.
Qed.

Lemma sat_getBody (P : World -> Prop) (l : loc) : sat P static_kept (getBody l).
Proof. apply sat_heap. intros w. rewrite getBody_heap. reflexivity. Qed.

Lemma sat_getObj (P : World -> Prop) (r : Ref) : sat P static_kept (getObj r).
Proof. apply sat_heap. intros w. rewrite getObj_heap. reflexivity. Qed.

Lemma sat_getCollider (P : World -> Prop) (l : loc) : sat P static_kept (getCollider l).
Proof.
  apply sat_heap. intros w. unfold getCollider. destruct (colliderHeap w !! l); reflexivity.
Qed.



Lemma sat_invoke (P : World -> Prop) (h : option Handler) (a : loc) :
  sat P static_kept (invoke h a).
Proof. apply sat_heap. intros w. destruct h; reflexivity. Qed.

Lemma visit_heap (a : loc) (o : Ref) (w : World) :
  bodyHeap (snd (visit a o w)) = bodyHeap w.
Proof.
  unfold visit. unfold mbind at 1, M_bind at 1.
  pose proof (getBody_heap a w) as Ha. destruct (getBody a w) as [[e|A] w1].
  - simpl in Ha |- *. rewrite Ha. reflexivity.
  - simpl in Ha. subst w1. unfold mbind at 1, M_bind at 1.
    pose proof (getObj_heap o w) as Ho. destruct (getObj o w) as [[e|ob] w1].
    + simpl in Ho |- *. rewrite Ho. reflexivity.
    + simpl in Ho. subst w1. reflexivity.
Qed.

Lemma sat_visit (P : World -> Prop) (a : loc) (o : Ref) :
  sat P static_kept (visit a o).
Proof. apply sat_heap, visit_heap. Qed.

Lemma sat_modifyBody_fst (a b : loc) (f : Body.t -> Body.t) :
  (forall x, Body.isStatic (f x) = Body.isStatic x) ->
  sat (fun w => nonstatic a w /\ nonstatic b w) static_kept (modifyBody a f).
Proof.
  intros Hf. eapply sat_weaken; [|apply sat_modifyBody, Hf]. intros w [H _]. exact H.
Qed.

Lemma sat_modifyBody_snd (a b : loc) (f : Body.t -> Body.t) :
  (forall x, Body.isStatic (f x) = Body.isStatic x) ->
  sat (fun w => nonstatic a w /\ nonstatic b w) static_kept (modifyBody b f).
Proof.
  intros Hf. eapply sat_weaken; [|apply sat_modifyBody, Hf]. intros w [_ H]. exact H.
Qed.

(** The steps that keep static bodies whatever the world. *)
Create HintDb sat discriminated.

#[local] Hint Resolve sat_ret sat_throw sat_gets sat_modifyThis sat_getBody sat_getObj
  sat_getCollider sat_invoke sat_visit resolveAgainst_isStatic : sat.

(** The precondition of a step is one that [static_kept] maintains. *)
Ltac sat_stable :=
  first [apply stable_True | apply nonstatic_kept | apply stable_nonstatic2].

(** [m ≫= k]: discharge the stability of the precondition, take the first
    step from the hints and go on with the continuation. *)
Ltac sat_seq :=
  apply sat_bind; [sat_stable | solve [auto with sat] | intros ?].

Lemma sat_resolveCollision (a : loc) (s : Ref) :
  sat (nonstatic a) static_kept (_resolveCollision a s).
Proof.
  unfold _resolveCollision. do 2 sat_seq.
  apply sat_modifyBody. auto with sat.
Qed.

Lemma sat_separate (a b : loc) (A B : Body.t) :
  sat (fun w => nonstatic a w /\ nonstatic b w) static_kept (separate a b A B).
Proof.
  unfold separate.
  destruct (smallestOverlapAxis _);
    (apply sat_bind; [apply stable_nonstatic2| |intros _];
     [apply sat_modifyBody_fst|apply sat_modifyBody_snd]; reflexivity).
Qed.

Lemma sat_resolveCollisionDynamic (a b : loc) :
  sat (fun w => nonstatic a w /\ nonstatic b w) static_kept
      (_resolveCollisionDynamic normalize a (RBody b)).
Proof.
  unfold _resolveCollisionDynamic. do 2 sat_seq.
  match goal with o : Obj |- _ => destruct o as [B|C] end; [|apply sat_throw].
  match goal with |- context [impulseOf normalize ?A B] =>
    destruct (impulseOf normalize A B) as [impulse|] end; [|apply sat_ret].
  apply sat_bind; [apply stable_nonstatic2| |intros _];
    [apply sat_modifyBody_fst; reflexivity|].
  apply sat_bind; [apply stable_nonstatic2| |intros _];
    [apply sat_modifyBody_snd; reflexivity|].
  apply sat_separate.
Qed.

(** On a collider the dynamic resolver throws before it writes. *)
Lemma sat_throws_on_collider (P : World -> Prop) (a c : loc) :
  sat P static_kept (_resolveCollisionDynamic normalize a (RCollider c)).
Proof.
  apply sat_heap. intros w.
  unfold _resolveCollisionDynamic, getObj, getBody, getCollider, mbind, M_bind.
  destruct (bodyHeap w !! a); [|reflexivity].
  destruct (colliderHeap w !! c); reflexivity.
Qed.

(** Both handlers run the same code. *)
Lemma handleCollisionStay_is_Enter (a : loc) (b : Ref) :
  _handleCollisionStay normalize a b = _handleCollisionEnter normalize a b.
Proof. reflexivity. Qed.

(** The handler reads the flags of its second argument in the world it
    then resolves in: the body it hands to the dynamic resolver is not
    static. *)
Lemma sat_handleCollisionEnter (a : loc) (b : Ref) :
  sat (nonstatic a) static_kept (_handleCollisionEnter normalize a b).
Proof.
  intros w Ha. unfold _handleCollisionEnter.
  destruct b as [lb|lc]; unfold getObj.
  - unfold mbind at 1, M_bind at 1. unfold mbind at 1, M_bind at 1. unfold getBody at 1.
    destruct (bodyHeap w !! lb) as [B|] eqn:EB; [|apply static_kept_refl].
    cbn [mret M_ret Obj.isStatic Obj.isTrigger truthyB orB orb].
    destruct (Body.isStatic B) eqn:Es.
    + apply sat_resolveCollision. exact Ha.
    + cbn [orb]. apply sat_resolveCollisionDynamic. split; [exact Ha|].
      intros B' HB'. rewrite EB in HB'. injection HB' as <-. exact Es.
  - unfold mbind at 1, M_bind at 1. unfold mbind at 1, M_bind at 1. unfold getCollider at 1.
    destruct (colliderHeap w !! lc) as [C|] eqn:EC; [|apply static_kept_refl].
    cbn [mret M_ret Obj.isStatic Obj.isTrigger truthyB orB orb].
    destruct (Collider.isTrigger C).
    + apply sat_resolveCollision. exact Ha.
    + apply (sat_throws_on_collider (nonstatic a)). exact Ha.
Qed.

Lemma sat_handleCollisionStay (a : loc) (b : Ref) :
  sat (nonstatic a) static_kept (_handleCollisionStay normalize a b).
Proof. rewrite handleCollisionStay_is_Enter. apply sat_handleCollisionEnter. Qed.

Lemma sat_handleCollisionExit (P : World -> Prop) (a : loc) (b : Ref) :
  sat P static_kept (_handleCollisionExit a b).
Proof. apply sat_ret. Qed.

#[local] Hint Resolve sat_handleCollisionEnter sat_handleCollisionStay
  sat_handleCollisionExit : sat.

Lemma sat_checkBody (a b : loc) :
  sat (nonstatic a) static_kept (checkBody normalize a b).
Proof.
  unfold checkBody. sat_seq.
  match goal with t : option Transition |- _ => destruct t as [[| |]|] end;
    auto with sat.
Qed.

Lemma sat_checkCollider (a c : loc) :
  sat (nonstatic a) static_kept (checkCollider normalize a c).
Proof.
  unfold checkCollider. do 2 sat_seq.
  match goal with t : option Transition, C : Collider.t |- _ =>
    destruct t as [[| |]|]; destruct (Collider.isTrigger C) end;
    auto with sat; sat_seq; auto with sat.
Qed.

(** The detection pass: the outer loop reads [isStatic] in the world it
    then scans from. *)
Lemma sat_checkCollisions :
  sat (fun _ => True) static_kept (_checkCollisions normalize).
Proof.
  unfold _checkCollisions. do 2 sat_seq.
  apply sat_forFrom; [apply stable_True|]. intros i bodyA w _.
  unfold mbind at 1, M_bind at 1. unfold getBody at 1.
  destruct (bodyHeap w !! bodyA) as [A|] eqn:EA; [|apply static_kept_refl].
  destruct (Body.isStatic A) eqn:Es; [apply static_kept_refl|].
  assert (Ha : nonstatic bodyA w).
  { intros A' HA'. rewrite EA in HA'. injection HA' as <-. exact Es. }
  clear EA. revert w Ha.
  match goal with bodies : list loc, colliders : list loc |- _ =>
    change (sat (nonstatic bodyA) static_kept
      (forFrom 0 bodies (fun j bodyB =>
          if Nat.eqb i j then mret tt else checkBody normalize bodyA bodyB);;
       forEach colliders (fun collider => checkCollider normalize bodyA collider)))
  end.
  apply sat_bind; [apply nonstatic_kept| |intros _].
  - apply sat_forFrom; [apply nonstatic_kept|]. intros j bodyB.
    destruct (Nat.eqb i j); [apply sat_ret|apply sat_checkBody].
  - apply sat_forEach; [apply nonstatic_kept|]. intros c. apply sat_checkCollider.
Qed.

(** The integration loop writes into the bodies it has read as not static,
    and the rest of the frame is the detection pass. *)
Lemma sat_update (deltaTime now : Q) :
  sat (fun _ => True) static_kept (update normalize deltaTime now).
Proof.
  unfold update. sat_seq. cbv zeta.
  match goal with |- context [Qltb ?x ?y] => destruct (Qltb x y) end; [apply sat_ret|].
  sat_seq.
  apply sat_bind; [apply stable_True| |intros _].
  - apply sat_forEach; [apply stable_True|]. intros body w _.
    unfold mbind at 1, M_bind at 1. unfold getBody at 1.
    destruct (bodyHeap w !! body) as [b|] eqn:Eb; [|apply static_kept_refl].
    destruct (Body.isStatic b) eqn:Es; [apply static_kept_refl|].
    rewrite bind_gets. apply sat_modifyBody; [reflexivity|].
    intros b' Hb'. rewrite Eb in Hb'. injection Hb' as <-. exact Es.
  - apply sat_bind; [apply stable_True|apply sat_checkCollisions|intros _].
    apply sat_modifyThis.
Qed.

Lemma frames_static_kept (steps : list (Q * Q)) (w : World) :
  static_kept w (frames normalize steps w).
Proof.
  revert w. induction steps as [|[deltaTime now] steps IH]; intros w; simpl.
  - apply static_kept_refl.
  - eapply static_kept_trans; [|apply IH]. apply sat_update. exact I.
Qed.


End StaticBodies.


(** ** Enter, stay, exit *)

Lemma entry_ensureRow (a a' b : string) (m : gmap string (gmap string bool)) :
  entry a b (ensureRow a' m) = entry a b m.
Proof.
  unfold ensureRow, entry. destruct (m !! a') as [row|] eqn:E; [reflexivity|].
  destruct (decide (a' = a)) as [->|Hne].
  - rewrite lookup_insert_eq, E. simpl. apply lookup_empty.
  - rewrite lookup_insert_ne by exact Hne. reflexivity.
Qed.

Lemma ensureRow_has_row (a : string) (m : gmap string (gmap string bool)) :
  is_Some (ensureRow a m !! a).
Proof.
  unfold ensureRow. destruct (m !! a) as [row|] eqn:E.
  - rewrite E. eauto.
  - rewrite lookup_insert_eq. eauto.
Qed.

Lemma entry_track_same (a b : string) (v : bool) (m : gmap string (gmap string bool)) :
  entry a b (fst (track a b v m)) = Some v.
Proof.
  unfold track, setEntry, entry. simpl.
  destruct (ensureRow_has_row a m) as [row Hrow].
  rewrite lookup_alter_eq, Hrow. simpl. apply lookup_insert_eq.
Qed.

Lemma entry_track_other (a b a' b' : string) (v : bool)
    (m : gmap string (gmap string bool)) :
  (a', b') <> (a, b) ->
  entry a b (fst (track a' b' v m)) = entry a b m.
Proof.
  intros Hne. unfold track, setEntry. simpl.
  rewrite <- (entry_ensureRow a a' b m).
  unfold entry. destruct (decide (a' = a)) as [->|Ha].
  - rewrite lookup_alter_eq. destruct (ensureRow a m !! a) as [row|]; [|reflexivity].
    simpl. apply lookup_insert_ne. congruence.
  - rewrite lookup_alter_ne by exact Ha. reflexivity.
Qed.

Lemma track_transition (a b : string) (v : bool) (m : gmap string (gmap string bool)) :
  snd (track a b v m) = classify v (entry a b m).
Proof. unfold track. simpl. rewrite entry_ensureRow. reflexivity. Qed.

Lemma about_cons {A : Type} (a b a' b' : string) (x : A)
    (l : list (string * string * A)) :
  about a b ((a', b', x) :: l) =
    if decide ((a', b') = (a, b)) then x :: about a b l else about a b l.
Proof.
  unfold about. rewrite filter_cons. simpl fst.
  destruct (decide ((a', b') = (a, b))); reflexivity.
Qed.

(** In any sequence of visits, the transitions of one pair are those of its
    own visits, started from its stored flag: visits of other pairs do not
    interfere. *)
Lemma about_observe (a b : string) (visits : list (string * string * bool))
    (m : gmap string (gmap string bool)) :
  about a b (observe visits m) = transitions (entry a b m) (about a b visits).
Proof.
  revert m. induction visits as [|[[a' b'] v] visits IH]; intros m; [reflexivity|].
  change (observe ((a', b', v) :: visits) m)
    with ((a', b', snd (track a' b' v m)) :: observe visits (fst (track a' b' v m))).
  rewrite !about_cons.
  destruct (decide ((a', b') = (a, b))) as [E|Hne].
  - inversion E; subst a' b'.
    rewrite IH, entry_track_same, track_transition. reflexivity.
  - rewrite IH, entry_track_other by exact Hne. reflexivity.
Qed.

Lemma classify_truthy (v : bool) (w1 w2 : option bool) :
  truthyB w1 = truthyB w2 -> classify v w1 = classify v w2.
Proof. intros H. unfold classify. rewrite H. reflexivity. Qed.

Lemma transitions_truthy (w1 w2 : option bool) (l : list bool) :
  truthyB w1 = truthyB w2 -> transitions w1 l = transitions w2 l.
Proof.
  intros H. destruct l as [|v l]; [reflexivity|].
  simpl. rewrite (classify_truthy v w1 w2 H). reflexivity.
Qed.

Lemma transitions_apart (n : nat) (l : list bool) :
  transitions (Some false) (replicate n false ++ l) =
  replicate n None ++ transitions (Some false) l.
Proof. induction n as [|n IH]; [reflexivity|]. simpl. rewrite IH. reflexivity. Qed.

Lemma transitions_touching (n : nat) (l : list bool) :
  transitions (Some true) (replicate n true ++ l) =
  replicate n (Some STAY) ++ transitions (Some true) l.
Proof. induction n as [|n IH]; [reflexivity|]. simpl. rewrite IH. reflexivity. Qed.



(** The bookkeeping of the detection loops is one [track] step on the keys
    of the two objects. *)
Lemma visit_tracks (bodyA : loc) (other : Ref) (w : World) (A : Body.t) (o : Obj) :
  getBody bodyA w = (inr A, w) ->
  getObj other w = (inr o, w) ->
  let r := track (key (Body.id A)) (key (Obj.id o)) (_checkCollision (OBody A) o)
                 (PhysicsSystem.collisionMatrix (this w)) in
  visit bodyA other w =
    (inr (snd r),
     with_this w (PhysicsSystem.with_collisionMatrix (this w) (fst r))).
Proof.
  intros HA Ho r. unfold visit, mbind, M_bind. rewrite HA, Ho. reflexivity.
Qed.

(** On a trigger volume the detection loop does the bookkeeping of the pair
    and calls the callback of the transition, if there is one, with the
    body; it resolves nothing. *)
Lemma checkCollider_on_trigger (normalize : THREE.Vector3 -> THREE.Vector3)
    (a c : loc) (w : World) (A : Body.t) (C : Collider.t) :
  bodyHeap w !! a = Some A ->
  colliderHeap w !! c = Some C ->
  Collider.isTrigger C = true ->
  let r := track (key (Body.id A)) (key (Collider.id C))
                 (_checkCollision (OBody A) (OCollider C))
                 (PhysicsSystem.collisionMatrix (this w)) in
  checkCollider normalize a c w =
    invoke (triggerCallback C (snd r)) a
      (with_this w (PhysicsSystem.with_collisionMatrix (this w) (fst r))).
Proof.
  intros HA HC HT r. unfold checkCollider.
  assert (Ho : getObj (RCollider c) w = (inr (OCollider C), w)).
  { unfold getObj, getCollider, mbind, M_bind. rewrite HC. reflexivity. }
  rewrite (bind_run _ _ _ _ _ (visit_tracks a (RCollider c) w A (OCollider C)
                                 (getBody_run w a A HA) Ho)).
  cbn [Obj.id]. fold r.
  erewrite bind_run; [|unfold getCollider; cbn [colliderHeap with_this]; rewrite HC; reflexivity].
  rewrite HT. destruct (snd r) as [[| |]|]; reflexivity.
Qed.

(** ** The resolution axis *)

Lemma smallestOverlapAxis_X (o : THREE.Vector3) :
  smallestOverlapAxis o = AxisX <->
  THREE.x o < THREE.y o /\ THREE.x o < THREE.z o.
Proof.
  unfold smallestOverlapAxis.
  destruct (Qltb (THREE.x o) (THREE.y o)) eqn:Exy;
  destruct (Qltb (THREE.x o) (THREE.z o)) eqn:Exz;
  destruct (Qltb (THREE.y o) (THREE.z o)) eqn:Eyz; simpl;
  rewrite ?Qltb_lt, ?Qltb_ge in *; split; try discriminate; try tauto;
  intros [? ?]; lra.
Qed.

Lemma smallestOverlapAxis_Y (o : THREE.Vector3) :
  smallestOverlapAxis o = AxisY <->
  THREE.y o <= THREE.x o /\ THREE.y o < THREE.z o.
Proof.
  unfold smallestOverlapAxis.
  destruct (Qltb (THREE.x o) (THREE.y o)) eqn:Exy;
  destruct (Qltb (THREE.x o) (THREE.z o)) eqn:Exz;
  destruct (Qltb (THREE.y o) (THREE.z o)) eqn:Eyz; simpl;
  rewrite ?Qltb_lt, ?Qltb_ge in *; split; try discriminate; try tauto;
  try (intros [? ?]; lra); intros _; split; lra.
Qed.

Lemma smallestOverlapAxis_Z (o : THREE.Vector3) :
  smallestOverlapAxis o = AxisZ <->
  THREE.z o <= THREE.x o /\ THREE.z o <= THREE.y o.
Proof.
  unfold smallestOverlapAxis.
  destruct (Qltb (THREE.x o) (THREE.y o)) eqn:Exy;
  destruct (Qltb (THREE.x o) (THREE.z o)) eqn:Exz;
  destruct (Qltb (THREE.y o) (THREE.z o)) eqn:Eyz; simpl;
  rewrite ?Qltb_lt, ?Qltb_ge in *; split; try discriminate; try tauto;
  try (intros [? ?]; lra); intros _; split; lra.
Qed.

Lemma resolveAgainst_position (s : Obj) (body : Body.t) :
  let overlap :=
    overlapOf (Body.position body) (Body.dimensions body)
              (Obj.position s) (Obj.dimensions s) in
  let p := Body.position body in
  Body.position (resolveAgainst s body) =
    match smallestOverlapAxis overlap with
    | AxisX =>
        THREE.with_x p
          (THREE.x p + directionOf (THREE.x p) (THREE.x (Obj.position s)) * THREE.x overlap)
    | AxisY =>
        THREE.with_y p
          (THREE.y p + directionOf (THREE.y p) (THREE.y (Obj.position s)) * THREE.y overlap)
    | AxisZ =>
        THREE.with_z p
          (THREE.z p + directionOf (THREE.z p) (THREE.z (Obj.position s)) * THREE.z overlap)
    end.
Proof.
  intros overlap p. unfold resolveAgainst. fold overlap. fold p.
  destruct (smallestOverlapAxis overlap); cbv zeta;
  match goal with |- context [if ?c then _ else _] => destruct c end;
  reflexivity.
Qed.

(** C3 (as the code has it): [_resolveCollision] resolves along an axis of
    minimum penetration and a tie goes to the later axis: x is chosen only
    when its penetration is strictly below both others, y when its
    penetration is at most that of x and strictly below that of z, and z
    when its penetration is at most both others.  The body is moved along
    the chosen axis only, by the penetration on that axis. *)
Theorem resolution_axis_is_minimal_and_ties_go_to_the_later_axis
    (s : Obj) (body : Body.t) :
  let overlap :=
    overlapOf (Body.position body) (Body.dimensions body)
              (Obj.position s) (Obj.dimensions s) in
  let axis := smallestOverlapAxis overlap in
  let p := Body.position body in
  let p' := Body.position (resolveAgainst s body) in
  (along axis overlap <= THREE.x overlap /\
   along axis overlap <= THREE.y overlap /\
   along axis overlap <= THREE.z overlap) /\
  (axis = AxisX <-> THREE.x overlap < THREE.y overlap /\ THREE.x overlap < THREE.z overlap) /\
  (axis = AxisY <-> THREE.y overlap <= THREE.x overlap /\ THREE.y overlap < THREE.z overlap) /\
  (axis = AxisZ <-> THREE.z overlap <= THREE.x overlap /\ THREE.z overlap <= THREE.y overlap) /\
  along axis p' =
    along axis p + directionOf (along axis p) (along axis (Obj.position s)) * along axis overlap /\
  (forall a : Axis, a <> axis -> along a p' = along a p).
Proof.
  intros overlap axis p p'.
  pose proof (smallestOverlapAxis_X overlap) as HX.
  pose proof (smallestOverlapAxis_Y overlap) as HY.
  pose proof (smallestOverlapAxis_Z overlap) as HZ.
  subst p'. rewrite resolveAgainst_position. fold overlap p. clearbody overlap p.
  subst axis. destruct (smallestOverlapAxis overlap).
  - destruct (proj1 HX eq_refl). simpl.
    split; [repeat split; lra|].
    split; [exact HX|]. split; [exact HY|]. split; [exact HZ|].
    split; [reflexivity|]. intros [] Hne; simpl; congruence.
  - destruct (proj1 HY eq_refl). simpl.
    split; [repeat split; lra|].
    split; [exact HX|]. split; [exact HY|]. split; [exact HZ|].
    split; [reflexivity|]. intros [] Hne; simpl; congruence.
  - destruct (proj1 HZ eq_refl). simpl.
    split; [repeat split; lra|].
    split; [exact HX|]. split; [exact HY|]. split; [exact HZ|].
    split; [reflexivity|]. intros [] Hne; simpl; congruence.
Qed.

(** The tie between y and z of [tieBody2] goes to z, and y is left alone. *)
Lemma resolution_axis_witness :
  smallestOverlapAxis
    (overlapOf (Body.position tieBody2) (Body.dimensions tieBody2)
               (Obj.position tieFloor) (Obj.dimensions tieFloor)) = AxisZ /\
  THREE.y (Body.position (resolveAgainst tieFloor tieBody2)) = THREE.y (Body.position tieBody2).
Proof.
  destruct (resolution_axis_is_minimal_and_ties_go_to_the_later_axis tieFloor tieBody2)
    as (_ & _ & _ & HZ & _ & Hframe).
  assert (E : smallestOverlapAxis
    (overlapOf (Body.position tieBody2) (Body.dimensions tieBody2)
               (Obj.position tieFloor) (Obj.dimensions tieFloor)) = AxisZ).
  { apply HZ. split; vm_compute; discriminate. }
  split; [exact E|].
  apply (Hframe AxisY). rewrite E. discriminate.
Defined.

(** C3 fails as stated: with the penetrations along x and y equal (1/2) and
    below that along z (5/2), the body is resolved along y, not x; with the
    penetrations along y and z equal (1/2) and below that along x (5/2),
    it is resolved along z, not y. *)
Lemma ties_are_not_broken_in_the_order_x_y_z :
  (let overlap :=
     overlapOf (Body.position tieBody) (Body.dimensions tieBody)
               (Obj.position tieWall) (Obj.dimensions tieWall) in
   THREE.x overlap == THREE.y overlap /\ THREE.x overlap < THREE.z overlap /\
   smallestOverlapAxis overlap <> AxisX /\
   THREE.x (Body.position (resolveAgainst tieWall tieBody)) = THREE.x (Body.position tieBody) /\
   THREE.y (Body.position (resolveAgainst tieWall tieBody)) == 1) /\
  (let overlap :=
     overlapOf (Body.position tieBody2) (Body.dimensions tieBody2)
               (Obj.position tieFloor) (Obj.dimensions tieFloor) in
   THREE.y overlap == THREE.z overlap /\ THREE.y overlap < THREE.x overlap /\
   smallestOverlapAxis overlap <> AxisY /\
   THREE.y (Body.position (resolveAgainst tieFloor tieBody2)) = THREE.y (Body.position tieBody2) /\
   THREE.z (Body.position (resolveAgainst tieFloor tieBody2)) == 1).
Proof.
  split; cbv zeta; repeat split; try (vm_compute; discriminate); vm_compute; reflexivity.
Qed.

(** ** Solid colliders *)

(** On a solid collider both handlers take the branch of the dynamic
    resolver, which throws on the collider's missing [velocity] before it
    writes anything. *)
Lemma solid_collider_is_handled_as_a_dynamic_body
    (normalize : THREE.Vector3 -> THREE.Vector3)
    (w : World) (a c : loc) (A : Body.t) (C : Collider.t) :
  bodyHeap w !! a = Some A ->
  colliderHeap w !! c = Some C ->
  Collider.isTrigger C = false ->
  _handleCollisionEnter normalize a (RCollider c) w =
    _resolveCollisionDynamic normalize a (RCollider c) w /\
  _handleCollisionStay normalize a (RCollider c) w =
    _resolveCollisionDynamic normalize a (RCollider c) w /\
  _resolveCollisionDynamic normalize a (RCollider c) w = (inl TypeError, w).
Proof.
  intros HA HC HT.
  unfold _handleCollisionEnter, _handleCollisionStay, _resolveCollisionDynamic.
  unfold getObj, getBody, getCollider, mbind, M_bind, mret, M_ret, throw.
  rewrite HA, HC. cbn [Obj.isStatic Obj.isTrigger truthyB orB orb]. rewrite HT.
  rewrite HA, HC. repeat split; reflexivity.
Qed.

(** C1 fails on the code: a default body inside a default solid collider
    that listens to [onCollisionEnter].  The frame flags the pair in the
    matrix (an ENTER), hands the collider to the dynamic resolver and ends
    in a [TypeError]: the static resolver has not moved the body (it is
    where integration left it) and the callback was not called.  *)
Theorem solid_collider_reaches_the_dynamic_resolver :
  let r := solidColliderFrame emptyWorld in
  let w := snd r in
  fst r = inl TypeError /\
  PhysicsSystem.bodies (this w) = [0%nat] /\
  PhysicsSystem.colliders (this w) = [0%nat] /\
  (Collider.isTrigger <$> colliderHeap w !! 0%nat) = Some false /\
  (Collider.onCollisionEnter <$> colliderHeap w !! 0%nat) = Some (Some 7%nat) /\
  entry "body_0" "collider_0" (PhysicsSystem.collisionMatrix (this w)) = Some true /\
  _handleCollisionEnter normalizeQ 0%nat (RCollider 0%nat) w =
    _resolveCollisionDynamic normalizeQ 0%nat (RCollider 0%nat) w /\
  _resolveCollisionDynamic normalizeQ 0%nat (RCollider 0%nat) w = (inl TypeError, w) /\
  (Body.position <$> bodyHeap w !! 0%nat) =
    Some (Body.position
            (integrate (THREE.mk 0 (-9.8) 0) ((1 # 60) * 1.0)
               (bodyLiteral 0 Body.no_options))) /\
  calls w = [].
Proof.
  cbv zeta.
  assert (HA : exists A, bodyHeap (snd (solidColliderFrame emptyWorld)) !! 0%nat = Some A).
  { eexists. vm_compute. reflexivity. }
  assert (HC : exists C, colliderHeap (snd (solidColliderFrame emptyWorld)) !! 0%nat = Some C
                         /\ Collider.isTrigger C = false).
  { eexists. split; vm_compute; reflexivity. }
  destruct HA as (A & HA). destruct HC as (C & HC & HT).
  destruct (solid_collider_is_handled_as_a_dynamic_body normalizeQ _ _ _ A C HA HC HT)
    as (Henter & _ & Hthrow).
  split; [vm_compute; reflexivity|].
  split; [vm_compute; reflexivity|].
  split; [vm_compute; reflexivity|].
  split; [vm_compute; reflexivity|].
  split; [vm_compute; reflexivity|].
  split; [vm_compute; reflexivity|].
  split; [exact Henter|]. split; [exact Hthrow|].
  split; vm_compute; reflexivity.
Qed.

(** ** Momentum *)

(** [separate] moves the two bodies and leaves their velocities and masses
    alone. *)
Lemma separate_run (w : World) (a b : loc) (A B A1 B1 : Body.t) :
  a <> b ->
  bodyHeap w !! a = Some A1 ->
  bodyHeap w !! b = Some B1 ->
  exists A2 B2 : Body.t,
    separate a b A B w =
      (inr tt, with_bodyHeap w (<[b := B2]> (<[a := A2]> (bodyHeap w)))) /\
    Body.velocity A2 = Body.velocity A1 /\ Body.mass A2 = Body.mass A1 /\
    Body.velocity B2 = Body.velocity B1 /\ Body.mass B2 = Body.mass B1.
Proof.
  intros Hne HA HB. unfold separate.
  destruct (smallestOverlapAxis _);
    (eexists _, _; split;
     [ erewrite bind_run by (apply modifyBody_run; exact HA);
       erewrite modifyBody_run
         by (cbn [bodyHeap with_bodyHeap]; rewrite lookup_insert_ne by exact Hne; exact HB);
       reflexivity
     | repeat split ]).
Qed.

(** C5: when the dynamic resolver runs on two distinct bodies of positive
    mass, the momentum [massA * velocityA + massB * velocityB] after it
    equals the momentum before it on every component, and the masses are
    unchanged; this holds whether or not the impulse is applied, for every
    normal. *)
Theorem dynamic_resolution_conserves_momentum
    (normalize : THREE.Vector3 -> THREE.Vector3)
    (w : World) (a b : loc) (A B : Body.t) :
  a <> b ->
  bodyHeap w !! a = Some A ->
  bodyHeap w !! b = Some B ->
  0 < Body.mass A ->
  0 < Body.mass B ->
  let r := _resolveCollisionDynamic normalize a (RBody b) w in
  exists A' B' : Body.t,
    fst r = inr tt /\
    bodyHeap (snd r) !! a = Some A' /\
    bodyHeap (snd r) !! b = Some B' /\
    Body.mass A' = Body.mass A /\
    Body.mass B' = Body.mass B /\
    THREE.equiv (momentum A' B') (momentum A B) /\
    (forall impulse : THREE.Vector3,
       impulseOf normalize A B = Some impulse ->
       THREE.equiv (THREE.multiplyScalar (Body.velocity A') (Body.mass A))
                   (THREE.add (THREE.multiplyScalar (Body.velocity A) (Body.mass A)) impulse) /\
       THREE.equiv (THREE.add (THREE.multiplyScalar (Body.velocity B') (Body.mass B)) impulse)
                   (THREE.multiplyScalar (Body.velocity B) (Body.mass B))).
Proof.
  intros Hne HA HB HmA HmB r. subst r.
  unfold _resolveCollisionDynamic.
  rewrite (bind_run _ _ w w A (getBody_run w a A HA)).
  assert (Ho : getObj (RBody b) w = (inr (OBody B), w)).
  { unfold getObj. rewrite (bind_run _ _ w w B (getBody_run w b B HB)). reflexivity. }
  rewrite (bind_run _ _ w w _ Ho).
  destruct (impulseOf normalize A B) as [impulse|] eqn:Ei.
  - erewrite bind_run by (apply modifyBody_run; exact HA).
    erewrite bind_run
      by (apply modifyBody_run; cbn [bodyHeap with_bodyHeap];
          rewrite lookup_insert_ne by exact Hne; exact HB).
    match goal with |- context [separate a b A B ?w1] =>
      destruct (separate_run w1 a b A B _ _ Hne
                  ltac:(cbn [bodyHeap with_bodyHeap];
                        rewrite lookup_insert_ne by (intros E; apply Hne; symmetry; exact E);
                        apply lookup_insert_eq)
                  ltac:(cbn [bodyHeap with_bodyHeap]; apply lookup_insert_eq))
        as (A2 & B2 & Hrun & HvA & HmA2 & HvB & HmB2)
    end.
    rewrite Hrun. exists A2, B2. cbn [fst snd bodyHeap with_bodyHeap].
    split; [reflexivity|].
    split; [rewrite lookup_insert_ne by (intros E; apply Hne; symmetry; exact E);
            apply lookup_insert_eq|].
    split; [apply lookup_insert_eq|].
    split; [exact HmA2|]. split; [exact HmB2|].
    assert (HnA : ~ Body.mass A == 0) by lra.
    assert (HnB : ~ Body.mass B == 0) by lra.
    split.
    + unfold momentum, THREE.equiv. rewrite HvA, HvB, HmA2, HmB2. simpl.
      repeat split; field; auto.
    + intros i Hi. inversion Hi; subst i.
      unfold THREE.equiv. rewrite HvA, HvB. simpl.
      repeat split; field; auto.
  - exists A, B. cbn [fst snd mret M_ret].
    split; [reflexivity|]. split; [exact HA|]. split; [exact HB|].
    split; [reflexivity|]. split; [reflexivity|].
    split; [unfold THREE.equiv; repeat split; reflexivity|].
    intros i Hi. discriminate Hi.
Qed.

(** The impulse on [headOn] changes the velocities and keeps the momentum. *)
Lemma dynamic_resolution_witness :
  let r := _resolveCollisionDynamic normalizeQ 0%nat (RBody 1%nat) headOnWorld in
  exists A B A' B' : Body.t,
    bodyHeap headOnWorld !! 0%nat = Some A /\
    bodyHeap headOnWorld !! 1%nat = Some B /\
    bodyHeap (snd r) !! 0%nat = Some A' /\
    bodyHeap (snd r) !! 1%nat = Some B' /\
    ~ THREE.x (Body.velocity A') == THREE.x (Body.velocity A) /\
    THREE.equiv (momentum A' B') (momentum A B).
Proof.
  intros r.
  assert (HA : exists A, bodyHeap headOnWorld !! 0%nat = Some A /\ 0 < Body.mass A).
  { eexists. split; vm_compute; reflexivity. }
  assert (HB : exists B, bodyHeap headOnWorld !! 1%nat = Some B /\ 0 < Body.mass B).
  { eexists. split; vm_compute; reflexivity. }
  destruct HA as (A & HA & HmA). destruct HB as (B & HB & HmB).
  assert (Hne : 0%nat <> 1%nat) by discriminate.
  destruct (dynamic_resolution_conserves_momentum normalizeQ headOnWorld 0%nat 1%nat A B
              Hne HA HB HmA HmB)
    as (A' & B' & _ & HA' & HB' & _ & _ & Hmomentum & _).
  exists A, B, A', B'.
  split; [exact HA|]. split; [exact HB|]. split; [exact HA'|]. split; [exact HB'|].
  split; [|exact Hmomentum].
  assert (EA : Some A = bodyHeap headOnWorld !! 0%nat) by (symmetry; exact HA).
  assert (EA' : Some A' = bodyHeap (snd r) !! 0%nat) by (symmetry; exact HA').
  vm_compute in EA, EA'. injection EA as ->. injection EA' as ->.
  vm_compute. discriminate.
Defined.

(** ** A whole run *)

(** Ten frames of a body falling through a trigger volume: it overlaps the
    volume on frames 5, 6 and 7, and the volume's callbacks are called as
    enter, stay, stay, exit, each with the body as argument. *)
Example trigger_callbacks_of_a_fall :
  calls (frames normalizeQ (tenthsOfASecond 10) (snd (dropThroughTrigger emptyWorld))) =
    [mkCall 1%nat 0%nat; mkCall 2%nat 0%nat; mkCall 2%nat 0%nat; mkCall 3%nat 0%nat].
Proof. vm_compute. reflexivity. Qed.

(** * Further properties of the physics system *)

(** ** Detection is symmetric *)

Lemma Qltb_compat (x x' y y' : Q) : x == x' -> y == y' -> Qltb x y = Qltb x' y'.
Proof.
  intros Hx Hy. destruct (Qltb x' y') eqn:E.
  - apply Qltb_lt in E. apply Qltb_lt. lra.
  - apply Qltb_ge in E. apply Qltb_ge. lra.
Qed.

(** [_checkCollision] gives the same answer whichever of the two objects
    comes first. *)
Theorem checkCollision_is_symmetric (a b : Obj) :
  _checkCollision a b = _checkCollision b a.
Proof.
  unfold _checkCollision.
  destruct (String.eqb (Obj.shape a) "box"), (String.eqb (Obj.shape b) "box");
    cbn [negb orb]; try reflexivity.
  rewrite (Qabs_Qminus (THREE.x (Obj.position a))),
          (Qabs_Qminus (THREE.y (Obj.position a))),
          (Qabs_Qminus (THREE.z (Obj.position a))).
  f_equal; [f_equal|]; apply Qltb_compat; try reflexivity; ring.
Qed.

(** ** Static resolution *)

(** Pushed by the penetration, away from the other centre, a coordinate
    ends half the summed extents from that centre. *)
Lemma pushed_out (p q D : Q) :
  p + directionOf p q * (D / 2 - Qabs (p - q)) - q ==
    (if Qltb p q then - (D / 2) else D / 2).
Proof.
  unfold directionOf. destruct (Qltb p q) eqn:E.
  - apply Qltb_lt in E. rewrite (Qabs_neg (p - q)) by lra. field.
  - apply Qltb_ge in E. rewrite (Qabs_pos (p - q)) by lra. field.
Qed.

Lemma pushed_out_apart (p q D : Q) :
  Qltb (Qabs (p + directionOf p q * (D / 2 - Qabs (p - q)) - q) * 2) D = false.
Proof.
  apply Qltb_ge. rewrite pushed_out.
  assert (HD : D == 2 * (D / 2)) by field.
  pose proof (Qle_Qabs (D / 2)) as Habs. revert HD Habs. generalize (D / 2).
  intros h HD Habs.
  destruct (Qltb p q); [rewrite Qabs_opp|]; lra.
Qed.

Lemma resolveAgainst_dimensions (s : Obj) (b : Body.t) :
  Body.dimensions (resolveAgainst s b) = Body.dimensions b.
Proof.
  unfold resolveAgainst. cbv zeta.
  destruct (smallestOverlapAxis _);
    match goal with |- context [if ?c then _ else _] => destruct c end; reflexivity.
Qed.

(** After [_resolveCollision] the pair is no longer reported. *)
Lemma resolveAgainst_apart (s : Obj) (body : Body.t) :
  _checkCollision (OBody (resolveAgainst s body)) s = false.
Proof.
  pose proof (resolveAgainst_position s body) as Hp. cbv zeta in Hp.
  unfold _checkCollision.
  destruct (negb _ || negb _); [reflexivity|].
  cbn [Obj.position Obj.dimensions]. rewrite resolveAgainst_dimensions, Hp.
  destruct (smallestOverlapAxis _); cbn [along THREE.x THREE.y THREE.z
    THREE.with_x THREE.with_y THREE.with_z overlapOf];
    rewrite pushed_out_apart; cbn [andb]; rewrite ?andb_false_r; reflexivity.
Qed.


Lemma Qabs_scaled (v k : Q) : 0 <= k -> k <= 1 -> Qabs (v * k) <= Qabs v.
Proof.
  intros H0 H1. rewrite Qabs_Qmult, (Qabs_pos k) by exact H0.
  pose proof (Qabs_nonneg v) as Hv. nra.
Qed.

Lemma Qabs_reflected (v r : Q) : 0 <= r -> r <= 1 -> Qabs (- v * r) <= Qabs v.
Proof.
  intros H0 H1. rewrite Qabs_Qmult, Qabs_opp, (Qabs_pos r) by exact H0.
  pose proof (Qabs_nonneg v) as Hv. nra.
Qed.

(** The vertical velocity after [_resolveCollision]: reflected and scaled
    by the restitution when the resolution axis is y, untouched otherwise;
    friction never applies to it. *)
Lemma resolveAgainst_velocity_y (s : Obj) (body : Body.t) :
  THREE.y (Body.velocity (resolveAgainst s body)) =
    match smallestOverlapAxis
            (overlapOf (Body.position body) (Body.dimensions body)
                       (Obj.position s) (Obj.dimensions s)) with
    | AxisY => - THREE.y (Body.velocity body) * Body.restitution body
    | _ => THREE.y (Body.velocity body)
    end.
Proof.
  unfold resolveAgainst. cbv zeta.
  destruct (smallestOverlapAxis _);
    match goal with |- context [if ?c then _ else _] => destruct c end; reflexivity.
Qed.

(** With restitution and frictions between 0 and 1, [_resolveCollision]
    never makes a velocity component larger in magnitude; and the vertical
    component is the reflected one or the old one, never a damped one. *)
Theorem static_resolution_never_speeds_up (s : Obj) (body : Body.t) :
  0 <= Body.restitution body -> Body.restitution body <= 1 ->
  0 <= Body.friction body -> Body.friction body <= 1 ->
  (forall f, Obj.friction s = Some f -> 0 <= f /\ f <= 1) ->
  let v := Body.velocity body in
  let v' := Body.velocity (resolveAgainst s body) in
  Qabs (THREE.x v') <= Qabs (THREE.x v) /\
  Qabs (THREE.y v') <= Qabs (THREE.y v) /\
  Qabs (THREE.z v') <= Qabs (THREE.z v) /\
  (THREE.y v' = THREE.y v \/ THREE.y v' = - THREE.y v * Body.restitution body).
Proof.
  intros Hr0 Hr1 Hf0 Hf1 Hs v v'. subst v v'.
  split; [|split; [|split]].
  4:{ rewrite resolveAgainst_velocity_y. destruct (smallestOverlapAxis _); auto. }
  all: unfold resolveAgainst; cbv zeta;
    destruct (smallestOverlapAxis _);
    cbn [Body.friction Body.with_velocity Body.with_position Body.velocity
         THREE.x THREE.y THREE.z THREE.with_x THREE.with_y THREE.with_z];
    (destruct (Obj.friction s) as [f|] eqn:Ef;
     [destruct (Hs f eq_refl) as [Hs0 Hs1]|]);
    match goal with |- context [if ?c then _ else _] => destruct c end;
    cbn [Body.friction Body.with_velocity Body.with_position Body.velocity
         THREE.x THREE.y THREE.z THREE.with_x THREE.with_y THREE.with_z default
         from_option];
    try change (id f) with f;
    try apply Qle_refl;
    try (apply Qabs_reflected; assumption);
    try (apply Qabs_scaled; nra);
    try (eapply Qle_trans; [apply Qabs_scaled; nra|apply Qabs_reflected; assumption]).
Qed.

(** ** Dynamic resolution *)

Lemma impulseOf_velocityAlongNormal (normalize : THREE.Vector3 -> THREE.Vector3)
    (A B : Body.t) :
  impulseOf normalize A B =
    if Qltb 0 (velocityAlongNormal normalize A B) then None
    else Some (THREE.multiplyScalar (normalOf normalize A B)
                 (((- (1 + Qmin (Body.restitution A) (Body.restitution B)))
                   * velocityAlongNormal normalize A B)
                  / (1 / Body.mass A + 1 / Body.mass B))).
Proof. reflexivity. Qed.

Lemma separate_shifts (a b : loc) (A B : Body.t) :
  let overlap :=
    overlapOf (Body.position A) (Body.dimensions A)
              (Body.position B) (Body.dimensions B) in
  let axis := smallestOverlapAxis overlap in
  let direction :=
    directionOf (along axis (Body.position A)) (along axis (Body.position B)) in
  separate a b A B =
    (modifyBody a (shifted axis (fun p => p + direction * (along axis overlap / 2)));;
     modifyBody b (shifted axis (fun p => p - direction * (along axis overlap / 2)))).
Proof.
  intros overlap axis direction. subst direction axis. unfold separate. fold overlap.
  destruct (smallestOverlapAxis overlap); reflexivity.
Qed.

(** The state [_resolveCollisionDynamic] leaves two distinct bodies in when
    it applies its impulse. *)
Lemma resolveCollisionDynamic_run (normalize : THREE.Vector3 -> THREE.Vector3)
    (w : World) (a b : loc) (A B : Body.t) (impulse : THREE.Vector3) :
  a <> b ->
  bodyHeap w !! a = Some A ->
  bodyHeap w !! b = Some B ->
  impulseOf normalize A B = Some impulse ->
  let overlap :=
    overlapOf (Body.position A) (Body.dimensions A)
              (Body.position B) (Body.dimensions B) in
  let axis := smallestOverlapAxis overlap in
  let direction :=
    directionOf (along axis (Body.position A)) (along axis (Body.position B)) in
  let vA := Body.velocity A in
  let vB := Body.velocity B in
  let A' :=
    shifted axis (fun p => p + direction * (along axis overlap / 2))
      (Body.with_velocity A
         (THREE.mk (THREE.x vA + THREE.x impulse / Body.mass A)
                   (THREE.y vA + THREE.y impulse / Body.mass A)
                   (THREE.z vA + THREE.z impulse / Body.mass A))) in
  let B' :=
    shifted axis (fun p => p - direction * (along axis overlap / 2))
      (Body.with_velocity B
         (THREE.mk (THREE.x vB - THREE.x impulse / Body.mass B)
                   (THREE.y vB - THREE.y impulse / Body.mass B)
                   (THREE.z vB - THREE.z impulse / Body.mass B))) in
  exists h : gmap loc Body.t,
    _resolveCollisionDynamic normalize a (RBody b) w = (inr tt, with_bodyHeap w h) /\
    h !! a = Some A' /\ h !! b = Some B' /\
    (forall l, l <> a -> l <> b -> h !! l = bodyHeap w !! l).
Proof.
  intros Hne HA HB Hi overlap axis direction vA vB A' B'.
  assert (Hba : b <> a) by (intros E; apply Hne; symmetry; exact E).
  unfold _resolveCollisionDynamic.
  rewrite (bind_run _ _ w w A (getBody_run w a A HA)).
  assert (Ho : getObj (RBody b) w = (inr (OBody B), w)).
  { unfold getObj. rewrite (bind_run _ _ w w B (getBody_run w b B HB)). reflexivity. }
  rewrite (bind_run _ _ w w _ Ho). rewrite Hi.
  erewrite bind_run by (apply modifyBody_run; exact HA).
  erewrite bind_run
    by (apply modifyBody_run; cbn [bodyHeap with_bodyHeap];
        rewrite lookup_insert_ne by exact Hne; exact HB).
  pose proof (separate_shifts a b A B) as Hs. cbv zeta in Hs.
  fold overlap in Hs. fold axis in Hs. fold direction in Hs. rewrite Hs.
  erewrite bind_run
    by (apply modifyBody_run; cbn [bodyHeap with_bodyHeap];
        rewrite lookup_insert_ne by exact Hba; apply lookup_insert_eq).
  erewrite modifyBody_run
    by (cbn [bodyHeap with_bodyHeap];
        rewrite lookup_insert_ne by exact Hne; apply lookup_insert_eq).
  cbn [bodyHeap with_bodyHeap]. eexists. split; [reflexivity|].
  split; [rewrite lookup_insert_ne by exact Hba; apply lookup_insert_eq|].
  split; [apply lookup_insert_eq|].
  intros l Hla Hlb.
  rewrite !lookup_insert_ne by congruence.
  reflexivity.
Qed.

(** [_resolveCollisionDynamic] returns at once when the velocity of A
    relative to B along the normal from A to B is positive, that is when A
    closes in on B: the world is left as it is, bodies overlapping or not. *)
Theorem dynamic_resolution_skips_closing_bodies
    (normalize : THREE.Vector3 -> THREE.Vector3)
    (w : World) (a b : loc) (A B : Body.t) :
  bodyHeap w !! a = Some A ->
  bodyHeap w !! b = Some B ->
  0 < velocityAlongNormal normalize A B ->
  _resolveCollisionDynamic normalize a (RBody b) w = (inr tt, w).
Proof.
  intros HA HB Hv. apply Qltb_lt in Hv.
  unfold _resolveCollisionDynamic.
  rewrite (bind_run _ _ w w A (getBody_run w a A HA)).
  assert (Ho : getObj (RBody b) w = (inr (OBody B), w)).
  { unfold getObj. rewrite (bind_run _ _ w w B (getBody_run w b B HB)). reflexivity. }
  rewrite (bind_run _ _ w w _ Ho).
  rewrite impulseOf_velocityAlongNormal, Hv. reflexivity.
Qed.

Lemma impulseOf_applied (normalize : THREE.Vector3 -> THREE.Vector3) (A B : Body.t) :
  velocityAlongNormal normalize A B <= 0 ->
  impulseOf normalize A B =
    Some (THREE.multiplyScalar (normalOf normalize A B)
            (((- (1 + Qmin (Body.restitution A) (Body.restitution B)))
              * velocityAlongNormal normalize A B)
             / (1 / Body.mass A + 1 / Body.mass B))).
Proof.
  intros Hv. apply Qltb_ge in Hv. rewrite impulseOf_velocityAlongNormal, Hv. reflexivity.
Qed.

Lemma along_withAlong (axis : Axis) (v : THREE.Vector3) (q : Q) :
  along axis (withAlong axis v q) = q.
Proof. destruct axis; reflexivity. Qed.

Lemma withAlong_apart (axis : Axis) (pa pb da db : THREE.Vector3) (qa qb : Q) :
  Qltb (Qabs (qa - qb) * 2) (along axis da + along axis db) = false ->
  Qltb (Qabs (THREE.x (withAlong axis pa qa) - THREE.x (withAlong axis pb qb)) * 2)
       (THREE.x da + THREE.x db) &&
  Qltb (Qabs (THREE.y (withAlong axis pa qa) - THREE.y (withAlong axis pb qb)) * 2)
       (THREE.y da + THREE.y db) &&
  Qltb (Qabs (THREE.z (withAlong axis pa qa) - THREE.z (withAlong axis pb qb)) * 2)
       (THREE.z da + THREE.z db) = false.
Proof.
  intros H. destruct axis; cbn [along withAlong THREE.with_x THREE.with_y THREE.with_z
    THREE.x THREE.y THREE.z] in *; rewrite H; cbn [andb]; rewrite ?andb_false_r;
    reflexivity.
Qed.


(** The law of restitution: when the normal [normalize] returns has length
    one and the masses are positive, the impulse of
    [_resolveCollisionDynamic] turns the relative velocity along that
    normal into its opposite, scaled by the smaller of the two
    restitutions. *)
Theorem dynamic_impulse_obeys_restitution
    (normalize : THREE.Vector3 -> THREE.Vector3)
    (w : World) (a b : loc) (A B : Body.t) :
  a <> b ->
  bodyHeap w !! a = Some A ->
  bodyHeap w !! b = Some B ->
  0 < Body.mass A ->
  0 < Body.mass B ->
  velocityAlongNormal normalize A B <= 0 ->
  THREE.dot (normalOf normalize A B) (normalOf normalize A B) == 1 ->
  let r := _resolveCollisionDynamic normalize a (RBody b) w in
  exists A' B' : Body.t,
    bodyHeap (snd r) !! a = Some A' /\
    bodyHeap (snd r) !! b = Some B' /\
    THREE.dot (minus (Body.velocity A') (Body.velocity B')) (normalOf normalize A B) ==
      - Qmin (Body.restitution A) (Body.restitution B)
        * velocityAlongNormal normalize A B.
Proof.
  intros Hne HA HB HmA HmB Hv Hunit r. subst r.
  destruct (resolveCollisionDynamic_run normalize w a b A B _ Hne HA HB
              (impulseOf_applied normalize A B Hv))
    as (h & Hrun & Ha & Hb & _).
  rewrite Hrun. cbn [snd bodyHeap with_bodyHeap].
  eexists _, _. split; [exact Ha|]. split; [exact Hb|].
  assert (HnA : ~ Body.mass A == 0) by lra.
  assert (HnB : ~ Body.mass B == 0) by lra.
  unfold shifted. cbn [Body.velocity Body.with_position Body.with_velocity].
  unfold velocityAlongNormal in *. fold (normalOf normalize A B) in *.
  revert Hunit Hv. generalize (normalOf normalize A B). intros n Hunit Hv.
  set (e := Qmin (Body.restitution A) (Body.restitution B)).
  unfold minus, THREE.dot, THREE.multiplyScalar in *.
  cbn [THREE.x THREE.y THREE.z] in *.
  set (vAN := (THREE.x (Body.velocity A) - THREE.x (Body.velocity B)) * THREE.x n +
              (THREE.y (Body.velocity A) - THREE.y (Body.velocity B)) * THREE.y n +
              (THREE.z (Body.velocity A) - THREE.z (Body.velocity B)) * THREE.z n) in *.
  set (j := (- (1 + e)) * vAN / (1 / Body.mass A + 1 / Body.mass B)).
  assert (Hsplit :
    (THREE.x (Body.velocity A) + THREE.x n * j / Body.mass A -
       (THREE.x (Body.velocity B) - THREE.x n * j / Body.mass B)) * THREE.x n +
    (THREE.y (Body.velocity A) + THREE.y n * j / Body.mass A -
       (THREE.y (Body.velocity B) - THREE.y n * j / Body.mass B)) * THREE.y n +
    (THREE.z (Body.velocity A) + THREE.z n * j / Body.mass A -
       (THREE.z (Body.velocity B) - THREE.z n * j / Body.mass B)) * THREE.z n
    == vAN + j * (1 / Body.mass A + 1 / Body.mass B)
             * (THREE.x n * THREE.x n + THREE.y n * THREE.y n + THREE.z n * THREE.z n)).
  { subst vAN. field. split; assumption. }
  rewrite Hsplit, Hunit. subst j. field.
  split; [exact HnB|]. split; [exact HnA|]. lra.
Qed.

(** [tieBody] against [tieWall]: restitution 0.3, both frictions 0.5. *)
Lemma static_resolution_speed_witness :
  Qabs (THREE.x (Body.velocity (resolveAgainst tieWall tieBody))) <= 1 /\
  Qabs (THREE.y (Body.velocity (resolveAgainst tieWall tieBody))) <= 1.
Proof.
  destruct (static_resolution_never_speeds_up tieWall tieBody)
    as (Hx & Hy & _ & _).
  - vm_compute. discriminate.
  - vm_compute. discriminate.
  - vm_compute. discriminate.
  - vm_compute. discriminate.
  - intros f Hf. injection Hf as <-. split; vm_compute; discriminate.
  - split; [exact Hx|exact Hy].
Defined.

(** The bodies of [closingWorld] move towards each other and are left as
    they are. *)
Lemma dynamic_resolution_skips_witness :
  _checkCollision (OBody closingA) (OBody closingB) = true /\
  _resolveCollisionDynamic normalizeQ 0%nat (RBody 1%nat) closingWorld =
    (inr tt, closingWorld).
Proof.
  split; [reflexivity|].
  apply (dynamic_resolution_skips_closing_bodies normalizeQ closingWorld 0%nat 1%nat
           closingA closingB).
  - reflexivity.
  - reflexivity.
  - reflexivity.
Defined.


(** On [headOn] the relative velocity along the normal goes from -2 to
    0.3 * 2. *)
Lemma dynamic_impulse_restitution_witness :
  let r := _resolveCollisionDynamic normalizeQ 0%nat (RBody 1%nat) headOnWorld in
  exists A' B' : Body.t,
    bodyHeap (snd r) !! 0%nat = Some A' /\
    bodyHeap (snd r) !! 1%nat = Some B' /\
    THREE.dot (minus (Body.velocity A') (Body.velocity B'))
              (normalOf normalizeQ headOnA headOnB) == 0.6.
Proof.
  intros r.
  assert (Hne : 0%nat <> 1%nat) by discriminate.
  destruct (dynamic_impulse_obeys_restitution normalizeQ headOnWorld
              0%nat 1%nat headOnA headOnB Hne)
    as (A' & B' & HA' & HB' & Hlaw).
  - vm_compute. reflexivity.
  - vm_compute. reflexivity.
  - reflexivity.
  - reflexivity.
  - vm_compute. discriminate.
  - vm_compute. reflexivity.
  - exists A', B'. split; [exact HA'|]. split; [exact HB'|].
    rewrite Hlaw. vm_compute. reflexivity.
Defined.

(** ** Forces and impulses *)


Section Forces.

Variable normalize : THREE.Vector3 -> THREE.Vector3.


(** A world without a dynamic body is frozen: a frame that passes the
    epsilon guard changes [lastStepTime] and nothing else.  No pair is
    visited, so static bodies never reach a collider's callbacks, whatever
    the colliders are. *)
Theorem static_world_is_frozen (w : World) (deltaTime now : Q) :
  Forall (fun l => exists b, bodyHeap w !! l = Some b /\ Body.isStatic b = true)
         (PhysicsSystem.bodies (this w)) ->
  0.0001 <= deltaTime * PhysicsSystem.timeScale (this w) ->
  update normalize deltaTime now w =
    (inr tt, with_this w (PhysicsSystem.with_lastStepTime (this w) now)).
Proof.
  intros Hall Hdt. apply Qltb_ge in Hdt.
  unfold update. rewrite bind_gets. cbv beta zeta. rewrite Hdt. rewrite bind_gets.
  assert (Hloop : forall (f : loc -> Body.t -> M unit) (bodies : list loc),
    Forall (fun l => exists b, bodyHeap w !! l = Some b /\ Body.isStatic b = true) bodies ->
    forEach bodies (fun body =>
      b ← getBody body; if Body.isStatic b then mret tt else f body b) w = (inr tt, w)).
  { intros f bodies H. induction H as [|l bodies (b & Hb & Hs) _ IH]; [reflexivity|].
    cbn [forEach]. erewrite bind_run; [exact IH|].
    rewrite (bind_run _ _ w w b (getBody_run w l b Hb)), Hs. reflexivity. }
  assert (Hscan : forall (f : nat -> loc -> M unit) (bodies : list loc) (i0 : nat),
    Forall (fun l => exists b, bodyHeap w !! l = Some b /\ Body.isStatic b = true) bodies ->
    forFrom i0 bodies (fun i bodyA =>
      A ← getBody bodyA; if Body.isStatic A then mret tt else f i bodyA) w = (inr tt, w)).
  { intros f bodies i0 H. revert i0.
    induction H as [|l bodies (b & Hb & Hs) _ IH]; intros i0; [reflexivity|].
    cbn [forFrom]. erewrite bind_run; [apply IH|].
    rewrite (bind_run _ _ w w b (getBody_run w l b Hb)), Hs. reflexivity. }
  erewrite bind_run; [|apply (Hloop (fun _ _ => _)); exact Hall].
  erewrite bind_run; [reflexivity|].
  unfold _checkCollisions. rewrite !bind_gets.
  apply (Hscan (fun i bodyA => _)). exact Hall.
Qed.

End Forces.



(** The floor of [staticOnly] sits inside a solid collider and no callback
    is called. *)
Lemma static_world_witness :
  update normalizeQ (1 # 60) 1000 staticOnlyWorld =
    (inr tt,
     with_this staticOnlyWorld
       (PhysicsSystem.with_lastStepTime (this staticOnlyWorld) 1000)) /\
  calls (snd (update normalizeQ (1 # 60) 1000 staticOnlyWorld)) = [].
Proof.
  assert (H : update normalizeQ (1 # 60) 1000 staticOnlyWorld =
    (inr tt,
     with_this staticOnlyWorld
       (PhysicsSystem.with_lastStepTime (this staticOnlyWorld) 1000))).
  { apply (static_world_is_frozen normalizeQ staticOnlyWorld (1 # 60) 1000).
    - apply Forall_cons. split; [|apply Forall_nil; exact I].
      eexists. split; vm_compute; reflexivity.
    - vm_compute. discriminate. }
  split; [exact H|]. rewrite H. reflexivity.
Defined.

(** ** What a frame leaves alone *)

Section Frame.

Variable normalize : THREE.Vector3 -> THREE.Vector3.

Lemma only_motion_refl (w : World) : only_motion w w.
Proof. repeat split. Qed.

Lemma only_motion_trans (w1 w2 w3 : World) :
  only_motion w1 w2 -> only_motion w2 w3 -> only_motion w1 w3.
Proof.
  intros (B12 & C12 & G12 & T12 & D12 & H12 & M12) (B23 & C23 & G23 & T23 & D23 & H23 & M23).
  repeat split; try congruence; intros l; rewrite M23; apply M12.
Qed.

(** Steps that leave the world as it is. *)
Lemma moves_same {A : Type} (m : M A) :
  (forall w, snd (m w) = w) -> sat (fun _ => True) only_motion m.
Proof. intros H w _. rewrite H. apply only_motion_refl. Qed.

Lemma moves_bind {A B : Type} (m : M A) (k : A -> M B) :
  sat (fun _ => True) only_motion m ->
  (forall a, sat (fun _ => True) only_motion (k a)) ->
  sat (fun _ => True) only_motion (m ≫= k).
Proof.
  intros Hm Hk w _. specialize (Hm w I).
  unfold mbind, M_bind. destruct (m w) as [[e|a] w'] eqn:E; cbn [snd] in Hm |- *.
  - exact Hm.
  - apply (only_motion_trans w w'); [exact Hm|]. apply Hk. exact I.
Qed.

Lemma moves_forEach {A : Type} (l : list A) (f : A -> M unit) :
  (forall a, sat (fun _ => True) only_motion (f a)) ->
  sat (fun _ => True) only_motion (forEach l f).
Proof.
  intros Hf. induction l as [|a l IH]; cbn [forEach].
  - apply moves_same. reflexivity.
  - apply moves_bind; [apply Hf|intros _; exact IH].
Qed.

Lemma moves_forFrom {A : Type} (l : list A) (f : nat -> A -> M unit) :
  (forall i a, sat (fun _ => True) only_motion (f i a)) ->
  forall i0, sat (fun _ => True) only_motion (forFrom i0 l f).
Proof.
  intros Hf. induction l as [|a l IH]; intros i0; cbn [forFrom].
  - apply moves_same. reflexivity.
  - apply moves_bind; [apply Hf|intros _; apply IH].
Qed.

Lemma moves_getBody (l : loc) : sat (fun _ => True) only_motion (getBody l).
Proof. apply moves_same. intros w. apply getBody_heap. Qed.

Lemma moves_getObj (r : Ref) : sat (fun _ => True) only_motion (getObj r).
Proof. apply moves_same. intros w. apply getObj_heap. Qed.

Lemma moves_getCollider (l : loc) : sat (fun _ => True) only_motion (getCollider l).
Proof.
  apply moves_same. intros w. unfold getCollider. destruct (colliderHeap w !! l); reflexivity.
Qed.

Lemma moves_gets {A : Type} (f : World -> A) : sat (fun _ => True) only_motion (gets f).
Proof. apply moves_same. reflexivity. Qed.

Lemma moves_ret {A : Type} (a : A) : sat (fun _ => True) only_motion (mret a).
Proof. apply moves_same. reflexivity. Qed.

Lemma moves_throw {A : Type} (e : Error) :
  sat (fun _ => True) only_motion (throw (A := A) e).
Proof. apply moves_same. reflexivity. Qed.

Lemma moves_invoke (h : option Handler) (a : loc) :
  sat (fun _ => True) only_motion (invoke h a).
Proof. intros w _. destruct h; repeat split. Qed.

(** A write into a body that keeps its makeup. *)
Lemma moves_modifyBody (l : loc) (f : Body.t -> Body.t) :
  (forall b, makeup (f b) = makeup b) ->
  sat (fun _ => True) only_motion (modifyBody l f).
Proof.
  intros Hf w _.
  destruct (bodyHeap w !! l) as [b|] eqn:E.
  2:{ unfold modifyBody, getBody, mbind, M_bind. rewrite E. apply only_motion_refl. }
  rewrite (modifyBody_run w l b f E). cbn [snd].
  repeat split. intros l'. cbn [bodyHeap with_bodyHeap].
  destruct (decide (l = l')) as [<-|Hne].
  - rewrite lookup_insert_eq, E. cbn [fmap option_fmap option_map]. rewrite Hf. reflexivity.
  - rewrite lookup_insert_ne by exact Hne. reflexivity.
Qed.

Lemma resolveAgainst_makeup (s : Obj) (b : Body.t) :
  makeup (resolveAgainst s b) = makeup b.
Proof.
  unfold resolveAgainst. cbv zeta.
  destruct (smallestOverlapAxis _);
    match goal with |- context [if ?c then _ else _] => destruct c end; reflexivity.
Qed.

Lemma moves_visit (a : loc) (o : Ref) : sat (fun _ => True) only_motion (visit a o).
Proof.
  unfold visit.
  apply moves_bind; [apply moves_getBody|intros A].
  apply moves_bind; [apply moves_getObj|intros ob].
  apply moves_bind; [apply moves_gets|intros m].
  apply moves_bind; [|intros _; apply moves_ret].
  intros w _. repeat split.
Qed.

Create HintDb moves discriminated.

#[local] Hint Resolve moves_getBody moves_getObj moves_getCollider moves_gets
  moves_ret moves_throw moves_invoke moves_visit : moves.

Ltac moves_seq := apply moves_bind; [solve [auto with moves] | intros ?].

Lemma moves_resolveCollision (a : loc) (s : Ref) :
  sat (fun _ => True) only_motion (_resolveCollision a s).
Proof.
  unfold _resolveCollision. do 2 moves_seq.
  apply moves_modifyBody. apply resolveAgainst_makeup.
Qed.

Lemma moves_separate (a b : loc) (A B : Body.t) :
  sat (fun _ => True) only_motion (separate a b A B).
Proof.
  rewrite separate_shifts.
  apply moves_bind; [|intros _]; apply moves_modifyBody; reflexivity.
Qed.

Lemma moves_resolveCollisionDynamic (a : loc) (b : Ref) :
  sat (fun _ => True) only_motion (_resolveCollisionDynamic normalize a b).
Proof.
  unfold _resolveCollisionDynamic. do 2 moves_seq.
  match goal with o : Obj |- _ => destruct o as [B|C] end;
    destruct b as [lb|lc]; try apply moves_throw.
  match goal with |- context [impulseOf normalize ?A B] =>
    destruct (impulseOf normalize A B) as [impulse|] end; [|apply moves_ret].
  apply moves_bind; [apply moves_modifyBody; reflexivity|intros _].
  apply moves_bind; [apply moves_modifyBody; reflexivity|intros _].
  apply moves_separate.
Qed.

Lemma moves_handleCollisionEnter (a : loc) (b : Ref) :
  sat (fun _ => True) only_motion (_handleCollisionEnter normalize a b).
Proof.
  unfold _handleCollisionEnter. moves_seq.
  match goal with |- context [if ?c then _ else _] => destruct c end;
    [apply moves_resolveCollision|apply moves_resolveCollisionDynamic].
Qed.

#[local] Hint Resolve moves_handleCollisionEnter : moves.

Lemma moves_checkBody (a b : loc) :
  sat (fun _ => True) only_motion (checkBody normalize a b).
Proof.
  unfold checkBody. moves_seq.
  match goal with t : option Transition |- _ => destruct t as [[| |]|] end;
    try apply moves_handleCollisionEnter; apply moves_ret.
Qed.

Lemma moves_checkCollider (a c : loc) :
  sat (fun _ => True) only_motion (checkCollider normalize a c).
Proof.
  unfold checkCollider. do 2 moves_seq.
  match goal with t : option Transition, C : Collider.t |- _ =>
    destruct t as [[| |]|]; destruct (Collider.isTrigger C) end;
    auto with moves;
    (apply moves_bind; [apply moves_handleCollisionEnter|intros _; apply moves_invoke]).
Qed.

Lemma moves_checkCollisions :
  sat (fun _ => True) only_motion (_checkCollisions normalize).
Proof.
  unfold _checkCollisions. do 2 moves_seq.
  apply moves_forFrom. intros i bodyA. moves_seq.
  match goal with |- context [if ?c then _ else _] => destruct c end; [apply moves_ret|].
  apply moves_bind; [|intros _].
  - apply moves_forFrom. intros j bodyB.
    destruct (Nat.eqb i j); [apply moves_ret|apply moves_checkBody].
  - apply moves_forEach. intros c. apply moves_checkCollider.
Qed.

Lemma moves_update (deltaTime now : Q) :
  sat (fun _ => True) only_motion (update normalize deltaTime now).
Proof.
  unfold update. moves_seq. cbv zeta.
  match goal with |- context [Qltb ?x ?y] => destruct (Qltb x y) end; [apply moves_ret|].
  moves_seq.
  apply moves_bind; [|intros _].
  - apply moves_forEach. intros body. moves_seq.
    match goal with |- context [if ?c then _ else _] => destruct c end; [apply moves_ret|].
    moves_seq. apply moves_modifyBody. reflexivity.
  - apply moves_bind; [apply moves_checkCollisions|intros _].
    intros w _. repeat split.
Qed.


End Frame.

(** ** When a frame ends normally *)

Section Completion.

Variable normalize : THREE.Vector3 -> THREE.Vector3.

(** The world the frame starts from. *)
Variable w0 : World.

Lemma completes_bind {A B : Type} (m : M A) (k : A -> M B)
    (Q : A -> Prop) (Q' : B -> Prop) :
  completes (only_motion w0) m Q ->
  sat (fun _ => True) only_motion m ->
  (forall a, Q a -> completes (only_motion w0) (k a) Q') ->
  completes (only_motion w0) (m ≫= k) Q'.
Proof.
  intros Hm Hs Hk w Pw. destruct (Hm w Pw) as (a & Ha & Qa).
  specialize (Hs w I). unfold mbind, M_bind.
  destruct (m w) as [[e|a'] w'] eqn:E; cbn [fst snd] in *; [discriminate|].
  injection Ha as ->. apply (Hk a Qa). apply (only_motion_trans w0 w); assumption.
Qed.

Lemma completes_weaken {A : Type} (m : M A) (Q Q' : A -> Prop) :
  (forall a, Q a -> Q' a) ->
  completes (only_motion w0) m Q -> completes (only_motion w0) m Q'.
Proof. intros H Hm w Pw. destruct (Hm w Pw) as (a & Ha & Qa). eauto. Qed.

Lemma completes_ret {A : Type} (a : A) :
  completes (only_motion w0) (mret a) (fun _ => True).
Proof. intros w _. exists a. split; [reflexivity|exact I]. Qed.

Lemma completes_gets {A : Type} (f : World -> A) :
  completes (only_motion w0) (gets f) (fun _ => True).
Proof. intros w _. exists (f w). split; [reflexivity|exact I]. Qed.

Lemma completes_modifyThis (f : PhysicsSystem.t -> PhysicsSystem.t) :
  completes (only_motion w0) (modifyThis f) (fun _ => True).
Proof. intros w _. exists tt. split; [reflexivity|exact I]. Qed.

Lemma completes_invoke (h : option Handler) (a : loc) :
  completes (only_motion w0) (invoke h a) (fun _ => True).
Proof. intros w _. exists tt. split; [destruct h; reflexivity|exact I]. Qed.

Lemma still_a_body (l : loc) (w : World) :
  is_Some (bodyHeap w0 !! l) -> only_motion w0 w -> is_Some (bodyHeap w !! l).
Proof.
  intros [b Hb] (_ & _ & _ & _ & _ & _ & Hm). specialize (Hm l). rewrite Hb in Hm.
  destruct (bodyHeap w !! l); [eauto|discriminate].
Qed.

Lemma completes_getBody (l : loc) :
  is_Some (bodyHeap w0 !! l) ->
  completes (only_motion w0) (getBody l) (fun _ => True).
Proof.
  intros Hl w Pw. destruct (still_a_body l w Hl Pw) as [b Hb].
  exists b. rewrite (getBody_run w l b Hb). split; [reflexivity|exact I].
Qed.

Lemma completes_getCollider (c : loc) (C : Collider.t) :
  colliderHeap w0 !! c = Some C ->
  completes (only_motion w0) (getCollider c) (fun C' => C' = C).
Proof.
  intros Hc w (_ & _ & _ & _ & _ & Hh & _). exists C.
  unfold getCollider. rewrite Hh, Hc. split; reflexivity.
Qed.

Lemma completes_getObj (r : Ref) :
  known w0 r ->
  completes (only_motion w0) (getObj r)
    (fun o => match r, o with
              | RBody _, OBody _ => True
              | RCollider _, OCollider C => Collider.isTrigger C = true
              | _, _ => False
              end).
Proof.
  destruct r as [l|c]; cbn [known getObj].
  - intros Hl. eapply completes_bind;
      [apply completes_getBody; exact Hl|apply moves_getBody|].
    intros b _ w _. exists (OBody b). split; [reflexivity|exact I].
  - intros (C & HC & HT). eapply completes_bind;
      [apply completes_getCollider; exact HC|apply moves_getCollider|].
    intros C' -> w _. exists (OCollider C). split; [reflexivity|exact HT].
Qed.

Lemma completes_modifyBody (l : loc) (f : Body.t -> Body.t) :
  is_Some (bodyHeap w0 !! l) ->
  completes (only_motion w0) (modifyBody l f) (fun _ => True).
Proof.
  intros Hl w Pw. destruct (still_a_body l w Hl Pw) as [b Hb].
  exists tt. rewrite (modifyBody_run w l b f Hb). split; [reflexivity|exact I].
Qed.

Lemma completes_forEach {A : Type} (l : list A) (f : A -> M unit) :
  (forall a, sat (fun _ => True) only_motion (f a)) ->
  (forall a, a ∈ l -> completes (only_motion w0) (f a) (fun _ => True)) ->
  completes (only_motion w0) (forEach l f) (fun _ => True).
Proof.
  intros Hs. induction l as [|a l IH]; intros Hf; cbn [forEach].
  - apply completes_ret.
  - eapply completes_bind; [apply Hf; left|apply Hs|].
    intros _ _. apply IH. intros a' Ha'. apply Hf. right. exact Ha'.
Qed.

Lemma completes_forFrom {A : Type} (l : list A) (f : nat -> A -> M unit) :
  (forall i a, sat (fun _ => True) only_motion (f i a)) ->
  (forall i a, a ∈ l -> completes (only_motion w0) (f i a) (fun _ => True)) ->
  forall i0, completes (only_motion w0) (forFrom i0 l f) (fun _ => True).
Proof.
  intros Hs. induction l as [|a l IH]; intros Hf i0; cbn [forFrom].
  - apply completes_ret.
  - eapply completes_bind; [apply Hf; left|apply Hs|].
    intros _ _. apply IH. intros i a' Ha'. apply Hf. right. exact Ha'.
Qed.

Lemma completes_resolveCollision (a : loc) (s : Ref) :
  is_Some (bodyHeap w0 !! a) -> known w0 s ->
  completes (only_motion w0) (_resolveCollision a s) (fun _ => True).
Proof.
  intros Ha Hs. unfold _resolveCollision.
  eapply completes_bind; [apply completes_getBody, Ha|apply moves_getBody|intros _ _].
  eapply completes_bind; [apply completes_getObj, Hs|apply moves_getObj|intros o _].
  apply completes_modifyBody, Ha.
Qed.

Lemma completes_resolveCollisionDynamic (a b : loc) :
  is_Some (bodyHeap w0 !! a) -> is_Some (bodyHeap w0 !! b) ->
  completes (only_motion w0) (_resolveCollisionDynamic normalize a (RBody b))
            (fun _ => True).
Proof.
  intros Ha Hb. unfold _resolveCollisionDynamic.
  eapply completes_bind; [apply completes_getBody, Ha|apply moves_getBody|intros A _].
  eapply completes_bind;
    [apply (completes_getObj (RBody b)), Hb|apply moves_getObj|intros [B|C] HQ];
    [|destruct HQ].
  destruct (impulseOf normalize A B) as [impulse|]; [|apply completes_ret].
  eapply completes_bind;
    [apply completes_modifyBody, Ha|apply moves_modifyBody; reflexivity|intros _ _].
  eapply completes_bind;
    [apply completes_modifyBody, Hb|apply moves_modifyBody; reflexivity|intros _ _].
  rewrite separate_shifts.
  eapply completes_bind;
    [apply completes_modifyBody, Ha|apply moves_modifyBody; reflexivity|intros _ _].
  apply completes_modifyBody, Hb.
Qed.

Lemma completes_handleCollisionEnter (a b : loc) :
  is_Some (bodyHeap w0 !! a) -> is_Some (bodyHeap w0 !! b) ->
  completes (only_motion w0) (_handleCollisionEnter normalize a (RBody b))
            (fun _ => True).
Proof.
  intros Ha Hb. unfold _handleCollisionEnter.
  eapply completes_bind;
    [apply (completes_getObj (RBody b)), Hb|apply moves_getObj|intros o _].
  destruct (truthyB (Obj.isStatic o) || truthyB (Obj.isTrigger o)).
  - apply completes_resolveCollision; [exact Ha|exact Hb].
  - apply completes_resolveCollisionDynamic; assumption.
Qed.

Lemma completes_visit (a : loc) (o : Ref) :
  is_Some (bodyHeap w0 !! a) -> known w0 o ->
  completes (only_motion w0) (visit a o) (fun _ => True).
Proof.
  intros Ha Ho. unfold visit.
  eapply completes_bind; [apply completes_getBody, Ha|apply moves_getBody|intros A _].
  eapply completes_bind; [apply completes_getObj, Ho|apply moves_getObj|intros ob _].
  eapply completes_bind; [apply completes_gets|apply moves_gets|intros m _].
  eapply completes_bind; [apply completes_modifyThis| |intros _ _; apply completes_ret].
  intros w _. repeat split.
Qed.

Lemma completes_checkBody (a b : loc) :
  is_Some (bodyHeap w0 !! a) -> is_Some (bodyHeap w0 !! b) ->
  completes (only_motion w0) (checkBody normalize a b) (fun _ => True).
Proof.
  intros Ha Hb. unfold checkBody.
  eapply completes_bind;
    [apply (completes_visit a (RBody b)); assumption|apply moves_visit|intros t _].
  destruct t as [[| |]|]; try apply completes_ret;
    apply completes_handleCollisionEnter; assumption.
Qed.

Lemma completes_checkCollider (a c : loc) :
  is_Some (bodyHeap w0 !! a) -> known w0 (RCollider c) ->
  completes (only_motion w0) (checkCollider normalize a c) (fun _ => True).
Proof.
  intros Ha Hc. unfold checkCollider.
  eapply completes_bind;
    [apply (completes_visit a (RCollider c)); assumption|apply moves_visit|intros t _].
  destruct Hc as (C & HC & HT).
  eapply completes_bind;
    [apply (completes_getCollider c C HC)|apply moves_getCollider|intros C' ->].
  rewrite HT. destruct t as [[| |]|]; try apply completes_ret; apply completes_invoke.
Qed.

Hypothesis start : triggers_only w0.

Lemma completes_checkCollisions :
  completes (only_motion w0) (_checkCollisions normalize) (fun _ => True).
Proof.
  destruct start as [Hbodies Hcolliders].
  intros w Pw. pose proof Pw as (HB & HC & _).
  revert w Pw HB HC. unfold _checkCollisions. intros w Pw HB HC.
  rewrite !bind_gets. rewrite HB, HC. revert w Pw HB HC.
  assert (Hc : completes (only_motion w0)
    (forFrom 0 (PhysicsSystem.bodies (this w0)) (fun i bodyA =>
       A ← getBody bodyA;
       if Body.isStatic A then mret tt
       else
         forFrom 0 (PhysicsSystem.bodies (this w0)) (fun j bodyB =>
           if Nat.eqb i j then mret tt else checkBody normalize bodyA bodyB);;
         forEach (PhysicsSystem.colliders (this w0))
           (fun collider => checkCollider normalize bodyA collider)))
    (fun _ => True)).
  { apply completes_forFrom.
    - intros i bodyA. apply moves_bind; [apply moves_getBody|intros A].
      destruct (Body.isStatic A); [apply moves_ret|].
      apply moves_bind; [|intros _].
      + apply moves_forFrom. intros j bodyB.
        destruct (Nat.eqb i j); [apply moves_ret|apply moves_checkBody].
      + apply moves_forEach. intros c. apply moves_checkCollider.
    - intros i bodyA HA.
      eapply completes_bind;
        [apply completes_getBody, Hbodies, HA|apply moves_getBody|intros A _].
      destruct (Body.isStatic A); [apply completes_ret|].
      eapply completes_bind; [| |intros _ _].
      + apply completes_forFrom.
        * intros j bodyB. destruct (Nat.eqb i j); [apply moves_ret|apply moves_checkBody].
        * intros j bodyB HB. destruct (Nat.eqb i j); [apply completes_ret|].
          apply completes_checkBody; apply Hbodies; assumption.
      + apply moves_forFrom. intros j bodyB.
        destruct (Nat.eqb i j); [apply moves_ret|apply moves_checkBody].
      + apply completes_forEach.
        * intros c. apply moves_checkCollider.
        * intros c Hc. apply completes_checkCollider;
            [apply Hbodies, HA|apply Hcolliders, Hc]. }
  intros w Pw _ _. apply Hc. exact Pw.
Qed.

Lemma completes_update (deltaTime now : Q) :
  completes (only_motion w0) (update normalize deltaTime now) (fun _ => True).
Proof.
  destruct start as [Hbodies _].
  intros w Pw. pose proof Pw as (HB & _).
  unfold update. rewrite bind_gets. cbv beta zeta.
  destruct (Qltb _ _); [exists tt; split; [reflexivity|exact I]|].
  rewrite bind_gets, HB. revert w Pw HB.
  assert (Hc : forall s, completes (only_motion w0)
    (forEach (PhysicsSystem.bodies (this w0)) (fun body =>
       b ← getBody body;
       if Body.isStatic b then mret tt
       else
         gravity ← gets (fun w => PhysicsSystem.gravity (this w));
         modifyBody body (integrate gravity s));;
     _checkCollisions normalize;;
     modifyThis (fun s => PhysicsSystem.with_lastStepTime s now))
    (fun _ => True)).
  { intros s.
    assert (Hm : forall body, sat (fun _ => True) only_motion
      (b ← getBody body;
       if Body.isStatic b then mret tt
       else
         gravity ← gets (fun w => PhysicsSystem.gravity (this w));
         modifyBody body (integrate gravity s))).
    { intros body. apply moves_bind; [apply moves_getBody|intros b].
      destruct (Body.isStatic b); [apply moves_ret|].
      apply moves_bind; [apply moves_gets|intros g].
      apply moves_modifyBody. reflexivity. }
    eapply completes_bind; [|apply moves_forEach, Hm|intros _ _].
    - apply completes_forEach; [exact Hm|]. intros body Hbody.
      eapply completes_bind;
        [apply completes_getBody, Hbodies, Hbody|apply moves_getBody|intros b _].
      destruct (Body.isStatic b); [apply completes_ret|].
      eapply completes_bind; [apply completes_gets|apply moves_gets|intros g _].
      apply completes_modifyBody, Hbodies, Hbody.
    - eapply completes_bind;
        [apply completes_checkCollisions|apply moves_checkCollisions|intros _ _].
      apply completes_modifyThis. }
  intros w Pw _. apply Hc. exact Pw.
Qed.

End Completion.

Lemma triggers_only_kept (w w' : World) :
  triggers_only w -> only_motion w w' -> triggers_only w'.
Proof.
  intros [Hb Hc] Hm. pose proof Hm as (HB & HC & _ & _ & _ & HH & _). split.
  - intros l Hl. rewrite HB in Hl. apply (still_a_body w l w' (Hb l Hl) Hm).
  - intros c Hc'. rewrite HC in Hc'. rewrite HH. apply Hc, Hc'.
Qed.



(** ** A body against a static body *)

Section AgainstStatic.

Variable normalize : THREE.Vector3 -> THREE.Vector3.

(** The detection step of a body [a] against a static body [s]: the pair is
    tracked, and when the two overlap [a] is resolved against [s] by the
    static resolver. *)
Lemma checkBody_against_static (w : World) (a s : loc) (A S : Body.t) :
  a <> s ->
  bodyHeap w !! a = Some A ->
  bodyHeap w !! s = Some S ->
  Body.isStatic S = true ->
  let c := _checkCollision (OBody A) (OBody S) in
  let r := track (key (Body.id A)) (key (Body.id S)) c
                 (PhysicsSystem.collisionMatrix (this w)) in
  checkBody normalize a s w =
    (inr tt,
     with_bodyHeap
       (with_this w (PhysicsSystem.with_collisionMatrix (this w) (fst r)))
       (if c then <[a := resolveAgainst (OBody S) A]> (bodyHeap w) else bodyHeap w)).
Proof.
  intros Hne HA HS Hstatic c r. unfold checkBody.
  assert (Ho : getObj (RBody s) w = (inr (OBody S), w)).
  { unfold getObj. rewrite (bind_run _ _ w w S (getBody_run w s S HS)). reflexivity. }
  rewrite (bind_run _ _ _ _ _ (visit_tracks a (RBody s) w A (OBody S)
                                 (getBody_run w a A HA) Ho)).
  cbn [Obj.id]. fold c. fold r.
  set (w1 := with_this w (PhysicsSystem.with_collisionMatrix (this w) (fst r))).
  assert (HA1 : bodyHeap w1 !! a = Some A) by exact HA.
  assert (HS1 : bodyHeap w1 !! s = Some S) by exact HS.
  assert (Ho1 : getObj (RBody s) w1 = (inr (OBody S), w1)).
  { unfold getObj. rewrite (bind_run _ _ w1 w1 S (getBody_run w1 s S HS1)). reflexivity. }
  assert (Hresolve : _handleCollisionEnter normalize a (RBody s) w1 =
            (inr tt, with_bodyHeap w1 (<[a := resolveAgainst (OBody S) A]> (bodyHeap w)))).
  { unfold _handleCollisionEnter. rewrite (bind_run _ _ _ _ _ Ho1).
    cbn [Obj.isStatic truthyB orB]. rewrite Hstatic. cbn [orb].
    unfold _resolveCollision.
    rewrite (bind_run _ _ w1 w1 A (getBody_run w1 a A HA1)).
    rewrite (bind_run _ _ _ _ _ Ho1).
    rewrite (modifyBody_run w1 a A _ HA1). reflexivity. }
  subst r. rewrite track_transition. fold c. unfold classify.
  destruct c; destruct (truthyB (entry _ _ _)); cbn [andb negb];
    first [exact Hresolve | reflexivity].
Qed.


End AgainstStatic.


(** ** The registry *)

(** [indexOf] answers the first index of the object. *)
Lemma indexOf_first (l : list loc) (x : loc) (i : nat) :
  indexOf l x = Some i ->
  l !! i = Some x /\ (forall j, (j < i)%nat -> l !! j <> Some x).
Proof.
  revert i. induction l as [|y l IH]; intros i; cbn [indexOf]; [discriminate|].
  destruct (decide (y = x)) as [->|Hne].
  - intros H. injection H as <-. split; [reflexivity|]. intros j Hj. lia.
  - destruct (indexOf l x) as [i'|] eqn:E; [|discriminate].
    cbn [fmap option_fmap option_map]. intros H. injection H as <-.
    destruct (IH i' eq_refl) as [Hi Hbefore]. split; [exact Hi|].
    intros [|j] Hj; cbn [lookup list_lookup].
    + intros H. injection H as H. contradiction.
    + apply Hbefore. lia.
Qed.

Lemma indexOf_app_new (l : list loc) (x : loc) :
  x ∉ l -> indexOf (l ++ [x]) x = Some (length l).
Proof.
  induction l as [|y l IH]; intros Hx; cbn [app indexOf length].
  - destruct (decide (x = x)); [reflexivity|contradiction].
  - apply not_elem_of_cons in Hx as [Hne Hx].
    destruct (decide (y = x)) as [->|_]; [contradiction|].
    rewrite (IH Hx). reflexivity.
Qed.

Lemma delete_last (l : list loc) (x : loc) : delete (length l) (l ++ [x]) = l.
Proof.
  induction l as [|y l IH]; [reflexivity|].
  cbn [app length]. change (delete (S (length l)) (y :: (l ++ [x])))
    with (y :: delete (length l) (l ++ [x])). rewrite IH. reflexivity.
Qed.

(** The world [removeBody] leaves when the body is in the collection. *)
Lemma removeBody_run (w : World) (body : loc) (b : Body.t) (i : nat) :
  indexOf (PhysicsSystem.bodies (this w)) body = Some i ->
  bodyHeap w !! body = Some b ->
  removeBody body w =
    (inr tt,
     with_this w
       (PhysicsSystem.with_collisionMatrix
          (PhysicsSystem.with_bodies (this w) (delete i (PhysicsSystem.bodies (this w))))
          (delete (key (Body.id b)) <$>
             delete (key (Body.id b)) (PhysicsSystem.collisionMatrix (this w))))).
Proof.
  intros Hi Hb. unfold removeBody. rewrite bind_gets, Hi.
  unfold modifyThis, modify, getBody, mbind, M_bind.
  cbn [this with_this bodyHeap]. rewrite Hb. reflexivity.
Qed.

(** [removeBody] drops one reference to the body, the first of the
    collection, and keeps the others in their order: an object that was
    added twice is still in the collection after one removal. *)
Theorem removeBody_drops_the_first_reference (w : World) (body : loc) (b : Body.t) :
  body ∈ PhysicsSystem.bodies (this w) ->
  bodyHeap w !! body = Some b ->
  let bodies := PhysicsSystem.bodies (this w) in
  let bodies' := PhysicsSystem.bodies (this (snd (removeBody body w))) in
  exists i : nat,
    bodies !! i = Some body /\
    (forall j, (j < i)%nat -> bodies !! j <> Some body) /\
    bodies' = take i bodies ++ drop (S i) bodies /\
    S (length bodies') = length bodies /\
    bodyHeap (snd (removeBody body w)) = bodyHeap w.
Proof.
  intros Hin Hb bodies bodies'. subst bodies'.
  destruct (indexOf_Some _ _ Hin) as (i & Hi & _).
  destruct (indexOf_first _ _ _ Hi) as [Hat Hbefore].
  rewrite (removeBody_run w body b i Hi Hb).
  cbn [snd this with_this bodyHeap PhysicsSystem.bodies PhysicsSystem.with_bodies
       PhysicsSystem.with_collisionMatrix].
  fold bodies in Hat, Hbefore |- *.
  exists i. split; [exact Hat|]. split; [exact Hbefore|].
  split; [apply delete_take_drop|]. split; [|reflexivity].
  rewrite length_delete by eauto.
  apply lookup_lt_Some in Hat. lia.
Qed.

(** Adding an object that is not in the collection and removing it again
    gives the collection back; the object keeps the id [addBody] gave it. *)
Theorem addBody_then_removeBody_restores_the_collection
    (w : World) (body : loc) (b : Body.t) :
  body ∉ PhysicsSystem.bodies (this w) ->
  bodyHeap w !! body = Some b ->
  let r := (addBody body;; removeBody body) w in
  let n := length (PhysicsSystem.bodies (this w)) in
  fst r = inr tt /\
  PhysicsSystem.bodies (this (snd r)) = PhysicsSystem.bodies (this w) /\
  PhysicsSystem.colliders (this (snd r)) = PhysicsSystem.colliders (this w) /\
  bodyHeap (snd r) !! body =
    Some (if truthyId (Body.id b) then b
          else Body.with_id b (Some ("body_" +:+ pretty n))) /\
  (forall l, l <> body -> bodyHeap (snd r) !! l = bodyHeap w !! l).
Proof.
  intros Hnew Hb r n. subst r.
  set (b1 := if truthyId (Body.id b) then b
             else Body.with_id b (Some ("body_" +:+ pretty n))).
  set (h1 := if truthyId (Body.id b) then bodyHeap w else <[body := b1]> (bodyHeap w)).
  set (w1 := with_this (with_bodyHeap w h1)
               (PhysicsSystem.with_bodies (this w)
                  (PhysicsSystem.bodies (this w) ++ [body]))).
  assert (Hadd : addBody body w = (inr body, w1)).
  { unfold addBody. rewrite (bind_run _ _ w w b (getBody_run w body b Hb)).
    subst w1 h1 b1. destruct (truthyId (Body.id b)) eqn:Eid; cbn [negb].
    - destruct w as [h ch t cs]. reflexivity.
    - erewrite bind_run
        by (rewrite bind_gets; fold n; apply modifyBody_run; exact Hb).
      reflexivity. }
  assert (Hb1 : bodyHeap w1 !! body = Some b1).
  { subst w1 h1 b1. cbn [bodyHeap with_bodyHeap with_this].
    destruct (truthyId (Body.id b)); [exact Hb|apply lookup_insert_eq]. }
  rewrite (bind_run _ _ _ _ _ Hadd).
  rewrite (removeBody_run w1 body b1 (length (PhysicsSystem.bodies (this w)))).
  - cbn [fst snd this with_this bodyHeap PhysicsSystem.bodies PhysicsSystem.colliders
         PhysicsSystem.with_bodies PhysicsSystem.with_collisionMatrix].
    split; [reflexivity|]. split; [apply delete_last|]. split; [reflexivity|].
    split; [exact Hb1|].
    intros l Hl. subst w1 h1. cbn [bodyHeap with_bodyHeap with_this].
    destruct (truthyId (Body.id b)); [reflexivity|].
    apply lookup_insert_ne. congruence.
  - apply indexOf_app_new. exact Hnew.
  - exact Hb1.
Qed.


(** [removeCollider] drops the first reference to the collider and writes
    nothing else: bodies, collider objects and the collision matrix are as
    before, and a collider that is not in the collection leaves the world
    unchanged.  The flags of the removed collider stay in the matrix: if a
    body was flagged as overlapping it, the next overlapping visit of that
    pair of ids is a STAY, not an ENTER. *)
Theorem removeCollider_keeps_the_matrix (w : World) (collider : loc) :
  let r := removeCollider collider w in
  let colliders := PhysicsSystem.colliders (this w) in
  fst r = inr tt /\
  bodyHeap (snd r) = bodyHeap w /\
  colliderHeap (snd r) = colliderHeap w /\
  PhysicsSystem.bodies (this (snd r)) = PhysicsSystem.bodies (this w) /\
  PhysicsSystem.collisionMatrix (this (snd r)) = PhysicsSystem.collisionMatrix (this w) /\
  calls (snd r) = calls w /\
  (collider ∉ colliders -> snd r = w) /\
  (collider ∈ colliders ->
   exists i : nat,
     colliders !! i = Some collider /\
     (forall j, (j < i)%nat -> colliders !! j <> Some collider) /\
     PhysicsSystem.colliders (this (snd r)) = take i colliders ++ drop (S i) colliders) /\
  (forall a k : string,
     entry a k (PhysicsSystem.collisionMatrix (this w)) = Some true ->
     snd (track a k true (PhysicsSystem.collisionMatrix (this (snd r)))) = Some STAY).
Proof.
  intros r colliders. subst r. unfold removeCollider. rewrite bind_gets. fold colliders.
  destruct (indexOf colliders collider) as [i|] eqn:Ei.
  - cbn [fst snd modifyThis modify this with_this bodyHeap colliderHeap calls
         PhysicsSystem.bodies PhysicsSystem.colliders PhysicsSystem.collisionMatrix
         PhysicsSystem.with_colliders].
    repeat (split; [reflexivity|]).
    split; [intros Hout; apply indexOf_None in Hout; congruence|].
    split.
    + intros _. destruct (indexOf_first _ _ _ Ei) as [Hat Hbefore].
      exists i. split; [exact Hat|]. split; [exact Hbefore|]. apply delete_take_drop.
    + intros a k H. rewrite track_transition, H. reflexivity.
  - cbn [fst snd mret M_ret].
    repeat (split; [reflexivity|]).
    split.
    + intros Hin. apply indexOf_None in Ei. contradiction.
    + intros a k H. rewrite track_transition, H. reflexivity.
Qed.

(** The trigger volume of [insideTriggerWorld] is removed while the body
    is inside it. *)
Lemma removeCollider_witness :
  let r := removeCollider 0%nat insideTriggerWorld in
  PhysicsSystem.colliders (this (snd r)) = [] /\
  snd (track "body_0" "collider_0" true
         (PhysicsSystem.collisionMatrix (this (snd r)))) = Some STAY.
Proof.
  intros r.
  destruct (removeCollider_keeps_the_matrix insideTriggerWorld 0%nat)
    as (_ & _ & _ & _ & _ & _ & _ & _ & Hstale).
  split; [vm_compute; reflexivity|].
  apply Hstale. vm_compute. reflexivity.
Defined.

(** An object added twice and removed once is still in the collection. *)
Lemma removeBody_first_reference_witness :
  PhysicsSystem.bodies (this addedTwiceWorld) = [0%nat; 0%nat] /\
  PhysicsSystem.bodies (this (snd (removeBody 0%nat addedTwiceWorld))) = [0%nat].
Proof.
  split; [reflexivity|].
  assert (Hb : exists b, bodyHeap addedTwiceWorld !! 0%nat = Some b).
  { eexists. vm_compute. reflexivity. }
  destruct Hb as (b & Hb).
  destruct (removeBody_drops_the_first_reference addedTwiceWorld 0%nat b)
    as (i & Hat & Hbefore & Hlist & _).
  - apply (list_elem_of_lookup_2 _ 0%nat). reflexivity.
  - exact Hb.
  - rewrite Hlist. destruct i as [|i]; [reflexivity|].
    exfalso. apply (Hbefore 0%nat); [lia|reflexivity].
Defined.

(** A new object goes into the collection of [fallingWorld] and out again. *)
Lemma addBody_removeBody_witness :
  let w := snd (newBody plainBody fallingWorld) in
  let r := (addBody 1%nat;; removeBody 1%nat) w in
  PhysicsSystem.bodies (this (snd r)) = [0%nat] /\
  (Body.id <$> bodyHeap (snd r) !! 1%nat) = Some (Some "body_1"%string).
Proof.
  cbv zeta.
  destruct (addBody_then_removeBody_restores_the_collection
              (snd (newBody plainBody fallingWorld)) 1%nat plainBody)
    as (_ & Hbodies & _ & Hobject & _).
  - intros Hin.
    change (PhysicsSystem.bodies (this (snd (newBody plainBody fallingWorld))))
      with [0%nat] in Hin.
    apply elem_of_cons in Hin as [Hin|Hin]; [discriminate|].
    apply elem_of_nil in Hin. contradiction.
  - vm_compute. reflexivity.
  - split; [exact Hbodies|]. exact (f_equal (fmap Body.id) Hobject).
Defined.


(** ** The host loop *)

Section HostLoop.

Variable normalize : THREE.Vector3 -> THREE.Vector3.

(** What one frame does to the timekeeping, however the frame ends. *)
Lemma animate_clock (currentTime now : Q) (e : Engine.t) :
  let e' := snd (Engine.animate normalize currentTime now e) in
  Engine.isRunning e' = Engine.isRunning e /\
  Engine.activeScene e' = Engine.activeScene e /\
  (if Engine.isRunning e
   then Engine.lastTime e' = currentTime /\
        Engine.deltaTime e' = (currentTime - Engine.lastTime e) / 1000 /\
        Engine.elapsedTime e' =
          Engine.elapsedTime e + (currentTime - Engine.lastTime e) / 1000
   else e' = e).
Proof.
  unfold Engine.animate. destruct (Engine.isRunning e) eqn:Er; cbn [negb].
  2:{ cbn [snd]. rewrite Er. repeat split. }
  cbv zeta. cbn [Engine.physicsSystem Engine.activeScene Engine.elapsedTime].
  destruct (update normalize _ now (Engine.physicsSystem e)) as [[err|[]] w].
  - cbn [snd Engine.with_physicsSystem Engine.isRunning Engine.activeScene
         Engine.lastTime Engine.deltaTime Engine.elapsedTime]. repeat split.
  - destruct (Engine.activeScene e) as [scene|];
      cbn [snd Engine.with_physicsSystem Engine.isRunning Engine.activeScene
           Engine.lastTime Engine.deltaTime Engine.elapsedTime]; repeat split.
Qed.


(** A frame that comes less than a tenth of a millisecond after the last
    one, with time scale 1 and no scene: the elapsed time advances and the
    physics world is left exactly as it is. *)
Theorem short_frame_skips_physics (currentTime now : Q) (e : Engine.t) :
  Engine.isRunning e = true ->
  Engine.activeScene e = None ->
  PhysicsSystem.timeScale (this (Engine.physicsSystem e)) == 1 ->
  currentTime - Engine.lastTime e < 0.1 ->
  let r := Engine.animate normalize currentTime now e in
  fst r = inr tt /\
  Engine.physicsSystem (snd r) = Engine.physicsSystem e /\
  Engine.elapsedTime (snd r) =
    Engine.elapsedTime e + (currentTime - Engine.lastTime e) / 1000.
Proof.
  intros Hr Hs Hts Hdt r. subst r. unfold Engine.animate. rewrite Hr. cbn [negb].
  cbv zeta. cbn [Engine.physicsSystem Engine.activeScene Engine.elapsedTime].
  assert (Hskip : update normalize ((currentTime - Engine.lastTime e) / 1000) now
                    (Engine.physicsSystem e) = (inr tt, Engine.physicsSystem e)).
  { unfold update. rewrite bind_gets. cbv beta zeta.
    assert (Hlt : Qltb ((currentTime - Engine.lastTime e) / 1000
                        * PhysicsSystem.timeScale (this (Engine.physicsSystem e)))
                       0.0001 = true).
    { apply Qltb_lt. rewrite Hts.
      assert (E : (currentTime - Engine.lastTime e) / 1000 * 1 ==
                  (currentTime - Engine.lastTime e) * (1 # 1000)) by field.
      rewrite E. lra. }
    rewrite Hlt. reflexivity. }
  rewrite Hskip, Hs. cbn [fst snd Engine.with_physicsSystem Engine.physicsSystem
                          Engine.elapsedTime].
  destruct e. repeat split.
Qed.

End HostLoop.

(** A frame 0.05 ms after the last one. *)
Lemma short_frame_witness :
  let r := Engine.animate normalizeQ 1000.05 1000.06 runningEngine in
  Engine.physicsSystem (snd r) = fallingWorld /\
  Engine.elapsedTime (snd r) = 0 + (1000.05 - 1000) / 1000.
Proof.
  destruct (short_frame_skips_physics normalizeQ 1000.05 1000.06 runningEngine)
    as (_ & Hphysics & Helapsed).
  - reflexivity.
  - reflexivity.
  - reflexivity.
  - reflexivity.
  - split; [exact Hphysics|exact Helapsed].
Defined.


(** ** Trigger volumes *)

Section Triggers.

Variable normalize : THREE.Vector3 -> THREE.Vector3.

(** The collider loop of a body over trigger volumes writes into no body
    and no collider; the calls it makes are made with that body. *)
Lemma trigger_loop_keeps_the_heaps (a : loc) (A : Body.t) (colliders : list loc) :
  forall w : World,
    bodyHeap w !! a = Some A ->
    (forall c, c ∈ colliders ->
       exists C, colliderHeap w !! c = Some C /\ Collider.isTrigger C = true) ->
    let r := forEach colliders (fun c => checkCollider normalize a c) w in
    fst r = inr tt /\
    bodyHeap (snd r) = bodyHeap w /\
    colliderHeap (snd r) = colliderHeap w /\
    PhysicsSystem.bodies (this (snd r)) = PhysicsSystem.bodies (this w) /\
    exists extra : list Call,
      calls (snd r) = calls w ++ extra /\
      Forall (fun call => argument call = a) extra.
Proof.
  induction colliders as [|c colliders IH]; intros w HA Hall r; subst r.
  - cbn [forEach fst snd mret M_ret]. repeat split.
    exists []. split; [rewrite app_nil_r; reflexivity|constructor].
  - cbn [forEach].
    destruct (Hall c ltac:(left)) as (C & HC & HT).
    pose proof (checkCollider_on_trigger normalize a c w A C HA HC HT) as Hstep.
    cbv zeta in Hstep.
    set (t := track _ _ _ _) in Hstep.
    set (w1 := with_this w _) in Hstep.
    assert (Hinvoke : exists extra w2,
              invoke (triggerCallback C (snd t)) a w1 = (inr tt, w2) /\
              bodyHeap w2 = bodyHeap w /\ colliderHeap w2 = colliderHeap w /\
              PhysicsSystem.bodies (this w2) = PhysicsSystem.bodies (this w) /\
              calls w2 = calls w ++ extra /\
              Forall (fun call => argument call = a) extra).
    { destruct (triggerCallback C (snd t)) as [h|].
      - exists [mkCall h a]. eexists. split; [reflexivity|].
        repeat split. repeat constructor.
      - exists []. eexists. split; [reflexivity|].
        repeat split; [rewrite app_nil_r; reflexivity|constructor]. }
    destruct Hinvoke as (extra & w2 & Hinvoke & Hh2 & Hc2 & Hb2 & Hcalls2 & Hextra).
    rewrite Hinvoke in Hstep. rewrite (bind_run _ _ _ _ _ Hstep).
    destruct (IH w2) as (Hr & Hh & Hc & Hb & extra' & Hcalls & Hextra').
    + rewrite Hh2. exact HA.
    + intros c' Hc'. rewrite Hc2. apply Hall. right. exact Hc'.
    + split; [exact Hr|]. split; [congruence|]. split; [congruence|].
      split; [congruence|].
      exists (extra ++ extra'). split.
      * rewrite Hcalls, Hcalls2, app_assoc. reflexivity.
      * apply Forall_app. split; assumption.
Qed.


End Triggers.

